(** * DJVUReader-iOS: the project-file configuration scripts

    A shallow embedding of the three Python scripts
    [configure_conditional_linking.py], [configure_xcframework.py] and
    [configure_xcode_project.py].  Each script reads [project.pbxproj] in
    text mode, writes a backup copy, rewrites the text with [str.replace]
    or [re.sub], and writes the result back.

    Text is a list of bytes: the UTF-8 encoding of the Python string.  All
    patterns of the scripts are ASCII, so matching on the bytes and matching
    on the decoded characters select the same spans.  The file store maps a
    path to the bytes of a regular file and marks the paths that cannot be
    opened for reading and those that cannot be opened for writing;
    Python's text-mode [open], with its decoding and its errors, sits
    between the store and the scripts.  Printing is taken to succeed:
    standard output accepts every line the scripts print. *)

From Stdlib Require Import List Ascii String Bool Arith Lia.
Import ListNotations.

Set Implicit Arguments.

(** ** Text *)

Definition text := list ascii.

Definition T (s : string) : text := list_ascii_of_string s.

Definition NL : ascii := "010"%char.
Definition TAB : ascii := "009"%char.
Definition CR : ascii := "013"%char.
Definition DQ : ascii := "034"%char.

Definition nl : text := [NL].
Definition tabs (n : nat) : text := repeat TAB n.
(** [q s] is [s] between double quotes. *)
Definition q (s : string) : text := DQ :: T s ++ [DQ].

Fixpoint text_eqb (a b : text) : bool :=
  match a, b with
  | [], [] => true
  | x :: a', y :: b' => Ascii.eqb x y && text_eqb a' b'
  | _, _ => false
  end.

(** ** Python [str] operations used by the scripts *)

Fixpoint starts_with (p s : text) : bool :=
  match p, s with
  | [], _ => true
  | _ :: _, [] => false
  | a :: p', b :: s' => Ascii.eqb a b && starts_with p' s'
  end.

(** [needle in hay] *)
Fixpoint contains (needle hay : text) : bool :=
  starts_with needle hay
  || match hay with
     | [] => false
     | _ :: hay' => contains needle hay'
     end.

(** [s.replace(old, new)]: every non-overlapping occurrence, scanning from
    the left.  [skip] counts the characters of the current occurrence that
    are still to be dropped. *)
Fixpoint replace_go (old new s : text) (skip : nat) : text :=
  match s with
  | [] =>
      match skip with
      | 0 => if starts_with old [] then new else []
      | S _ => []
      end
  | c :: s' =>
      match skip with
      | S k => replace_go old new s' k
      | 0 =>
          if starts_with old s then
            match List.length old with
            | 0 => new ++ c :: replace_go old new s' 0
            | S k => new ++ replace_go old new s' k
            end
          else c :: replace_go old new s' 0
      end
  end.

Definition str_replace (old new s : text) : text := replace_go old new s 0.

(** ** The regular expressions of the scripts

    Every pattern in the three scripts is a sequence of literal characters,
    greedy [[^c]*], lazy [[^c]*?], with at most one capturing group that
    opens at the start of the pattern. *)

Inductive atom : Type :=
| Chr (c : ascii)            (* a literal character *)
| StarNot (c : ascii)        (* [^c]*   greedy *)
| LazyStarNot (c : ascii)    (* [^c]*?  lazy *)
| CloseGroup.                (* the ")" of group 1 *)

Definition regex := list atom.

Definition lit (s : string) : regex := map Chr (T s).

(** Backtracking match of [p] at the head of [s].  [n] is the number of
    characters consumed so far and [g] the length of group 1; the result is
    [(length of group 1, length of the match)], alternatives tried in the
    order of Python's [re]. *)
Fixpoint rmatch (p : regex) (s : text) (n g : nat) {struct p} : option (nat * nat) :=
  match p with
  | [] => Some (g, n)
  | Chr c :: p' =>
      match s with
      | x :: s' => if Ascii.eqb x c then rmatch p' s' (S n) g else None
      | [] => None
      end
  | CloseGroup :: p' => rmatch p' s n n
  | StarNot c :: p' =>
      (fix star (s : text) (n : nat) {struct s} : option (nat * nat) :=
         match s with
         | x :: s' =>
             if Ascii.eqb x c then rmatch p' s n g
             else match star s' (S n) with
                  | Some r => Some r
                  | None => rmatch p' s n g
                  end
         | [] => rmatch p' s n g
         end) s n
  | LazyStarNot c :: p' =>
      (fix lazy (s : text) (n : nat) {struct s} : option (nat * nat) :=
         match rmatch p' s n g with
         | Some r => Some r
         | None =>
             match s with
             | x :: s' => if Ascii.eqb x c then None else lazy s' (S n)
             | [] => None
             end
         end) s n
  end.

Definition match_at (p : regex) (s : text) : option (nat * nat) := rmatch p s 0 0.

(** [re.search(p, s)]: the leftmost position with a match, as
    [(start, length of group 1, length of the match)]. *)
Fixpoint re_search (p : regex) (s : text) : option (nat * nat * nat) :=
  match match_at p s with
  | Some (g, m) => Some (0, g, m)
  | None =>
      match s with
      | [] => None
      | _ :: s' =>
          match re_search p s' with
          | Some (i, g, m) => Some (S i, g, m)
          | None => None
          end
      end
  end.

Definition found (p : regex) (s : text) : bool :=
  match re_search p s with Some _ => true | None => false end.

(** [re.sub(p, repl, s)]: every non-overlapping match from the left is
    replaced by [repl] applied to the text of group 1. *)
Fixpoint sub_go (p : regex) (repl : text -> text) (s : text) (skip : nat) : text :=
  match s with
  | [] =>
      match skip with
      | 0 => match match_at p [] with
             | Some _ => repl []
             | None => []
             end
      | S _ => []
      end
  | c :: s' =>
      match skip with
      | S k => sub_go p repl s' k
      | 0 =>
          match match_at p s with
          | Some (g, 0) => repl (firstn g s) ++ c :: sub_go p repl s' 0
          | Some (g, S k) => repl (firstn g s) ++ sub_go p repl s' k
          | None => c :: sub_go p repl s' 0
          end
      end
  end.

Definition re_sub (p : regex) (repl : text -> text) (s : text) : text :=
  sub_go p repl s 0.

(** ** Files, text-mode I/O and printed output

    [open(path, 'r')] reads with universal newlines: a carriage return,
    alone or followed by a line feed, reaches the program as one line feed.
    [open(path, 'w')] writes a line feed as [os.linesep], which is a line
    feed on the system the hard-coded path belongs to. *)

Fixpoint universal_newlines (raw : text) : text :=
  match raw with
  | [] => []
  | c :: r =>
      if Ascii.eqb c CR then
        match r with
        | d :: r' =>
            if Ascii.eqb d NL then NL :: universal_newlines r'
            else NL :: universal_newlines r
        | [] => [NL]
        end
      else c :: universal_newlines r
  end.

Definition linesep_newlines (s : text) : text := s.

(** The default encoding of text-mode [open] on that system is UTF-8, with
    strict error handling.  [utf8_valid raw] tells whether [raw] decodes:
    the well-formed byte sequences of the Unicode standard (no overlong
    form, no surrogate, nothing above U+10FFFF). *)

Definition byte_in (lo hi : nat) (c : ascii) : bool :=
  (lo <=? nat_of_ascii c) && (nat_of_ascii c <=? hi).

Definition continuation (c : ascii) : bool := byte_in 128 191 c.

Definition two_byte_lead (b0 : ascii) : bool := byte_in 194 223 b0.

Definition three_byte_start (b0 b1 : ascii) : bool :=
  (byte_in 224 224 b0 && byte_in 160 191 b1)
  || (byte_in 225 236 b0 && continuation b1)
  || (byte_in 237 237 b0 && byte_in 128 159 b1)
  || (byte_in 238 239 b0 && continuation b1).

Definition four_byte_start (b0 b1 : ascii) : bool :=
  (byte_in 240 240 b0 && byte_in 144 191 b1)
  || (byte_in 241 243 b0 && continuation b1)
  || (byte_in 244 244 b0 && byte_in 128 143 b1).

Fixpoint utf8_valid (raw : text) : bool :=
  match raw with
  | [] => true
  | b0 :: r0 =>
      if byte_in 0 127 b0 then utf8_valid r0
      else
        match r0 with
        | [] => false
        | b1 :: r1 =>
            if two_byte_lead b0 then continuation b1 && utf8_valid r1
            else
              match r1 with
              | [] => false
              | b2 :: r2 =>
                  if three_byte_start b0 b1 then continuation b2 && utf8_valid r2
                  else
                    match r2 with
                    | [] => false
                    | b3 :: r3 =>
                        four_byte_start b0 b1 && continuation b2
                        && continuation b3 && utf8_valid r3
                    end
              end
        end
  end.

(** The exceptions a run can end with, none of which the scripts catch, and
    the two ways a call of [configure_xcode_project] ends. *)
Inductive error : Type :=
| UnicodeDecodeError     (* the file is not UTF-8 text *)
| OSError.               (* the path cannot be opened: a directory, a file
                            without permission *)

Inductive outcome : Type :=
| Returned (b : bool)
| Raised (e : error).

Section World.
Variable msg : Type.

Inductive event : Type :=
| EvPrint (m : msg)
| EvWrite (path : string) (data : text).

(** The regular files with their bytes; the paths that exist and that
    [open(p, 'r')] refuses (a directory, a file without read permission);
    the paths that [open(p, 'w')] refuses (a directory, a read-only file, a
    new file in a read-only directory); and the events so far, oldest
    first. *)
Record world : Type := mkWorld {
  files : string -> option text;
  unreadable : string -> bool;
  unwritable : string -> bool;
  trace : list event
}.

(** [os.path.exists(p)] *)
Definition path_exists (w : world) (p : string) : bool :=
  unreadable w p || match files w p with Some _ => true | None => false end.

(** [open(p, 'r')] and [f.read()] *)
Definition read_text (w : world) (p : string) : text + error :=
  if unreadable w p then inr OSError
  else match files w p with
       | None => inr OSError
       | Some raw =>
           if utf8_valid raw then inl (universal_newlines raw)
           else inr UnicodeDecodeError
       end.

Definition print (m : msg) (w : world) : world :=
  mkWorld (files w) (unreadable w) (unwritable w) (trace w ++ [EvPrint m]).

Definition print_all (ms : list msg) (w : world) : world :=
  fold_left (fun w m => print m w) ms w.

(** The store after [s] has been written to [p]. *)
Definition store_text (p : string) (s : text) (w : world) : world :=
  let data := linesep_newlines s in
  mkWorld (fun p' => if String.eqb p' p then Some data else files w p')
          (unreadable w) (unwritable w)
          (trace w ++ [EvWrite p data]).

(** [open(p, 'w')] and [f.write(s)] *)
Definition write_text (p : string) (s : text) (w : world) : world + error :=
  if unwritable w p then inr OSError else inl (store_text p s w).

(** The file writes of a trace, in order. *)
Fixpoint writes (tr : list event) : list (string * text) :=
  match tr with
  | [] => []
  | EvPrint _ :: tr' => writes tr'
  | EvWrite p d :: tr' => (p, d) :: writes tr'
  end.
End World.

Arguments EvPrint {msg} m.
Arguments EvWrite {msg} path data.
Arguments mkWorld {msg} files unreadable unwritable trace.

Definition project_path : string :=
  "/Users/nikitakrivonosov/Documents/DJVUReader-iOS/DJVUReader-iOS.xcodeproj/project.pbxproj".

(** [r'(buildSettings = \{[^}]*?);'], shared by two of the scripts. *)
Definition settings_pattern : regex :=
  lit "buildSettings = {" ++ [LazyStarNot "}"%char; CloseGroup; Chr ";"%char].

(** ** configure_conditional_linking.py *)

Module ConditionalLinking.

Inductive msg : Type :=
| NotFound | Configuring | CreatedBackup
| UpdatedDebugLdflags | UpdatedReleaseLdflags
| AddedDebugFlags | AddedReleaseFlags
| Configured | LibrariesCreated | DeviceLibrary | SimulatorLibrary
| AutomaticSelection.

Definition backup_path : string := (project_path ++ ".conditional_backup")%string.

Definition debug_pattern : text :=
  T "OTHER_LDFLAGS = (" ++ nl ++ tabs 5 ++ q "$(inherited)" ++ T "," ++ nl
    ++ tabs 5 ++ q "-ldjvulibre" ++ T "," ++ nl ++ tabs 4 ++ T ");".
Definition release_pattern : text := debug_pattern.

Definition conditional_ldflags : text :=
  T "OTHER_LDFLAGS = (" ++ nl ++ tabs 5 ++ q "$(inherited)" ++ T "," ++ nl
    ++ tabs 5 ++ q "$(DJVU_LIBRARY_FLAG)" ++ T "," ++ nl ++ tabs 4 ++ T ");".

Definition build_start (id : string) : text :=
  T id ++ T " = {" ++ nl ++ tabs 3 ++ T "isa = XCBuildConfiguration;" ++ nl
    ++ tabs 3 ++ T "buildSettings = {".

Definition debug_build_start : text := build_start "E0C520F82DF4C8C7009D84A3 /* Debug */".
Definition release_build_start : text := build_start "E0C520F92DF4C8C7009D84A3 /* Release */".

Definition library_flags : text :=
  nl ++ tabs 4 ++ q "DJVU_LIBRARY_FLAG[sdk=iphoneos*]" ++ T " = "
    ++ q "-ldjvulibre_device" ++ T ";" ++ nl
    ++ tabs 4 ++ q "DJVU_LIBRARY_FLAG[sdk=iphonesimulator*]" ++ T " = "
    ++ q "-ldjvulibre_simulator" ++ T ";".

Definition debug_replacement : text := debug_build_start ++ library_flags.
Definition release_replacement : text := release_build_start ++ library_flags.

(** [if old in content: content = content.replace(old, new); print(m)] *)
Definition replace_if_present (old new : text) (m : msg)
    (st : text * list msg) : text * list msg :=
  if contains old (fst st)
  then (str_replace old new (fst st), snd st ++ [m])
  else st.

Definition ldflags_steps (st : text * list msg) : text * list msg :=
  let st := replace_if_present debug_pattern conditional_ldflags UpdatedDebugLdflags st in
  replace_if_present release_pattern conditional_ldflags UpdatedReleaseLdflags st.

(** The in-memory part of the script: the content and the lines printed. *)
Definition patch (content : text) : text * list msg :=
  let st := ldflags_steps (content, []) in
  let st := replace_if_present debug_build_start debug_replacement AddedDebugFlags st in
  replace_if_present release_build_start release_replacement AddedReleaseFlags st.

Definition configure_xcode_project (w : world msg) : outcome * world msg :=
  if negb (path_exists w project_path) then (Returned false, print NotFound w)
  else
    let w := print Configuring w in
    match read_text w project_path with
    | inr e => (Raised e, w)
    | inl content =>
        match write_text backup_path content w with
        | inr e => (Raised e, w)
        | inl w =>
            let w := print CreatedBackup w in
            let st := patch content in
            let w := print_all (snd st) w in
            match write_text project_path (fst st) w with
            | inr e => (Raised e, w)
            | inl w =>
                let w := print_all [Configured; LibrariesCreated; DeviceLibrary;
                                    SimulatorLibrary; AutomaticSelection] w in
                (Returned true, w)
            end
        end
    end.

End ConditionalLinking.

(** The state threaded through the two regex scripts: the content, the
    [modified] flag and the lines printed. *)
Record pstate (msg : Type) : Type := mkP {
  content : text;
  modified : bool;
  out : list msg
}.
Arguments mkP {msg} content modified out.

(** [content = re.sub(p, repl, content); modified = True; print(m)] *)
Definition substitute {msg : Type} (p : regex) (repl : text -> text) (m : msg)
    (st : pstate msg) : pstate msg :=
  mkP (re_sub p repl (content st)) true (out st ++ [m]).

(** The [add_...] callbacks: [match.group(1) + '\n\t\t\t\t' + setting]. *)
Definition add_setting (setting : text) : text -> text :=
  fun group1 => group1 ++ nl ++ tabs 4 ++ setting.

(** ** configure_xcframework.py *)

Module XCFramework.

Inductive msg : Type :=
| NotFound | Configuring | CreatedBackup
| RemovedOldLibrary
| UpdatedHeaderSearchPaths | AddedHeaderSearchPaths
| RemovedLibrarySearchPaths
| UpdatedOtherLdflags | AddedOtherLdflags
| AddedFrameworkSearchPaths
| Updated | NextSteps | Step1 | Step2 | Step3 | Step4
| NoChangesNeeded.

Definition backup_path : string := (project_path ++ ".xcframework_backup")%string.

(** [[^\n]*NAME[^\n]*\n] *)
Definition line_with (name : string) : regex :=
  [StarNot NL] ++ lit name ++ [StarNot NL; Chr NL].

Definition old_lib_patterns : list regex :=
  [line_with "libdjvulibre.a"; line_with "libdjvulibre_simulator.a"].

Definition header_pattern : regex :=
  lit "HEADER_SEARCH_PATHS = " ++ [StarNot ";"%char; Chr ";"%char].
Definition xcframework_header_path : text :=
  q "$(SRCROOT)/DJVUReader-iOS/LibDJVU/libdjvulibre.xcframework/ios-arm64/libdjvulibre.framework/Headers".

Definition lib_search_pattern : regex :=
  lit "LIBRARY_SEARCH_PATHS = " ++ [StarNot ";"%char; Chr ";"%char; Chr NL].

Definition ldflags_pattern : regex :=
  lit "OTHER_LDFLAGS = " ++ [StarNot ";"%char; Chr ";"%char].
Definition xcframework_ldflags : text := q "-framework libdjvulibre".

Definition framework_search_path : text := q "$(SRCROOT)/DJVUReader-iOS/LibDJVU".

Definition remove_old_lib (st : pstate msg) (pattern : regex) : pstate msg :=
  if found pattern (content st)
  then substitute pattern (fun _ => []) RemovedOldLibrary st
  else st.

Definition remove_old_libs (st : pstate msg) : pstate msg :=
  fold_left remove_old_lib old_lib_patterns st.

Definition header_step (st : pstate msg) : pstate msg :=
  if found header_pattern (content st)
  then substitute header_pattern
         (fun _ => T "HEADER_SEARCH_PATHS = " ++ xcframework_header_path ++ T ";")
         UpdatedHeaderSearchPaths st
  else substitute settings_pattern
         (add_setting (T "HEADER_SEARCH_PATHS = " ++ xcframework_header_path ++ T ";"))
         AddedHeaderSearchPaths st.

Definition lib_search_step (st : pstate msg) : pstate msg :=
  if found lib_search_pattern (content st)
  then substitute lib_search_pattern (fun _ => []) RemovedLibrarySearchPaths st
  else st.

Definition ldflags_step (st : pstate msg) : pstate msg :=
  if found ldflags_pattern (content st)
  then substitute ldflags_pattern
         (fun _ => T "OTHER_LDFLAGS = " ++ xcframework_ldflags ++ T ";")
         UpdatedOtherLdflags st
  else substitute settings_pattern
         (add_setting (T "OTHER_LDFLAGS = " ++ xcframework_ldflags ++ T ";"))
         AddedOtherLdflags st.

Definition framework_step (st : pstate msg) : pstate msg :=
  if negb (contains (T "FRAMEWORK_SEARCH_PATHS") (content st))
  then substitute settings_pattern
         (add_setting (T "FRAMEWORK_SEARCH_PATHS = " ++ framework_search_path ++ T ";"))
         AddedFrameworkSearchPaths st
  else st.

(** The in-memory part of the script. *)
Definition patch (c : text) : pstate msg :=
  let st := mkP c false [] in
  let st := remove_old_libs st in
  let st := header_step st in
  let st := lib_search_step st in
  let st := ldflags_step st in
  framework_step st.

Definition configure_xcode_project (w : world msg) : outcome * world msg :=
  if negb (path_exists w project_path) then (Returned false, print NotFound w)
  else
    let w := print Configuring w in
    match read_text w project_path with
    | inr e => (Raised e, w)
    | inl c =>
        match write_text backup_path c w with
        | inr e => (Raised e, w)
        | inl w =>
            let w := print CreatedBackup w in
            let st := patch c in
            let w := print_all (out st) w in
            if modified st then
              match write_text project_path (content st) w with
              | inr e => (Raised e, w)
              | inl w =>
                  let w := print_all [Updated; NextSteps; Step1; Step2; Step3; Step4] w in
                  (Returned true, w)
              end
            else
              (Returned true, print NoChangesNeeded w)
        end
    end.

End XCFramework.

(** ** configure_xcode_project.py *)

Module XcodeProject.

Inductive msg : Type :=
| NotFound | Configuring | CreatedBackup
| AddedHeaderSearchPaths | UpdatedHeaderSearchPaths
| AddedLibrarySearchPaths
| AddedOtherLdflags | UpdatedOtherLdflags
| AddedBridgingHeader
| Updated | NextSteps | Step1 | Step2 | Step3
| NoChangesNeeded.

Definition backup_path : string := (project_path ++ ".backup")%string.

(** The group [HEADER_SEARCH_PATHS = ] with a greedy run of non-semicolons,
    then the semicolon. *)
Definition header_pattern : regex :=
  lit "HEADER_SEARCH_PATHS = " ++ [StarNot ";"%char; CloseGroup; Chr ";"%char].
(** The group [OTHER_LDFLAGS = ] with a greedy run of non-semicolons,
    then the semicolon. *)
Definition ldflags_pattern : regex :=
  lit "OTHER_LDFLAGS = " ++ [StarNot ";"%char; CloseGroup; Chr ";"%char].

Definition include_path : text := q "$(SRCROOT)/DJVUReader-iOS/LibDJVU/include".
Definition bridging_header_path : text :=
  q "DJVUReader-iOS/LibDJVU/DJVUReader-iOS-Bridging-Header.h".

(** The template [r'\1,\n\t\t\t\t' + element + ';']. *)
Definition append_element (element : text) : text -> text :=
  fun group1 => group1 ++ T "," ++ nl ++ tabs 4 ++ element ++ T ";".

Definition header_step (st : pstate msg) : pstate msg :=
  if negb (contains (T "HEADER_SEARCH_PATHS") (content st))
  then substitute settings_pattern
         (add_setting (T "HEADER_SEARCH_PATHS = " ++ include_path ++ T ";"))
         AddedHeaderSearchPaths st
  else if found header_pattern (content st)
  then substitute header_pattern (append_element include_path)
         UpdatedHeaderSearchPaths st
  else st.

Definition library_step (st : pstate msg) : pstate msg :=
  if negb (contains (T "LIBRARY_SEARCH_PATHS") (content st))
  then substitute settings_pattern
         (add_setting (T "LIBRARY_SEARCH_PATHS = "
                         ++ q "$(SRCROOT)/DJVUReader-iOS/LibDJVU/lib" ++ T ";"))
         AddedLibrarySearchPaths st
  else st.

Definition ldflags_step (st : pstate msg) : pstate msg :=
  if negb (contains (T "OTHER_LDFLAGS") (content st))
  then substitute settings_pattern
         (add_setting (T "OTHER_LDFLAGS = " ++ q "-ldjvulibre" ++ T ";"))
         AddedOtherLdflags st
  else if found ldflags_pattern (content st)
          && negb (contains (T "-ldjvulibre") (content st))
  then substitute ldflags_pattern (append_element (q "-ldjvulibre"))
         UpdatedOtherLdflags st
  else st.

Definition bridging_step (st : pstate msg) : pstate msg :=
  if negb (contains (T "SWIFT_OBJC_BRIDGING_HEADER") (content st))
  then substitute settings_pattern
         (add_setting (T "SWIFT_OBJC_BRIDGING_HEADER = " ++ bridging_header_path ++ T ";"))
         AddedBridgingHeader st
  else st.

(** The in-memory part of the script. *)
Definition patch (c : text) : pstate msg :=
  let st := mkP c false [] in
  let st := header_step st in
  let st := library_step st in
  let st := ldflags_step st in
  bridging_step st.

Definition configure_xcode_project (w : world msg) : outcome * world msg :=
  if negb (path_exists w project_path) then (Returned false, print NotFound w)
  else
    let w := print Configuring w in
    match read_text w project_path with
    | inr e => (Raised e, w)
    | inl c =>
        match write_text backup_path c w with
        | inr e => (Raised e, w)
        | inl w =>
            let w := print CreatedBackup w in
            let st := patch c in
            let w := print_all (out st) w in
            if modified st then
              match write_text project_path (content st) w with
              | inr e => (Raised e, w)
              | inl w =>
                  let w := print_all [Updated; NextSteps; Step1; Step2; Step3] w in
                  (Returned true, w)
              end
            else
              (Returned true, print NoChangesNeeded w)
        end
    end.

End XcodeProject.

(** ** The block locator as the specification words it

    Scan forward from the character after the opening brace, tracking the
    nesting depth, and return the offset of the closing brace met at depth
    zero. *)

Fixpoint spec_scan_close (s : text) (depth off : nat) : option nat :=
  match s with
  | [] => None
  | c :: s' =>
      if Ascii.eqb c "{"%char then spec_scan_close s' (S depth) (S off)
      else if Ascii.eqb c "}"%char then
        match depth with
        | 0 => Some off
        | S d => spec_scan_close s' d (S off)
        end
      else spec_scan_close s' depth (S off)
  end.

Definition settings_anchor : text := T "buildSettings = {".

(** The offset of the closing brace of the first settings table, counted
    from the start of the document. *)
Fixpoint spec_block_end_from (s : text) (off : nat) : option nat :=
  if starts_with settings_anchor s
  then spec_scan_close (skipn (List.length settings_anchor) s) 0
         (off + List.length settings_anchor)
  else match s with
       | [] => None
       | _ :: s' => spec_block_end_from s' (S off)
       end.

Definition spec_block_end (doc : text) : option nat := spec_block_end_from doc 0.

(** What the scripts locate instead: the end of group 1 of the leftmost
    match of [settings_pattern], where a new setting is spliced in. *)
Definition located_end (doc : text) : option nat :=
  match re_search settings_pattern doc with
  | Some (i, g, _) => Some (i + g)
  | None => None
  end.

(** The number of positions of [hay] at which [needle] starts. *)
Fixpoint occurrences (needle hay : text) : nat :=
  (if starts_with needle hay then 1 else 0)
  + match hay with
    | [] => 0
    | _ :: hay' => occurrences needle hay'
    end.

(** ** Sample documents *)

(** One [XCBuildConfiguration] object with the given settings. *)
Definition configuration (id : string) (name : string) (settings : list text) : text :=
  tabs 2 ++ T id ++ T " = {" ++ nl
  ++ tabs 3 ++ T "isa = XCBuildConfiguration;" ++ nl
  ++ tabs 3 ++ T "buildSettings = {" ++ nl
  ++ List.concat (map (fun s => tabs 4 ++ s ++ T ";" ++ nl) settings)
  ++ tabs 3 ++ T "};" ++ nl
  ++ tabs 3 ++ T "name = " ++ T name ++ T ";" ++ nl
  ++ tabs 2 ++ T "};" ++ nl.

Definition debug_configuration (settings : list text) : text :=
  configuration "E0C520F82DF4C8C7009D84A3 /* Debug */" "Debug" settings.

(** A project that none of the scripts has touched yet. *)
Definition fresh_project : text :=
  debug_configuration [T "PRODUCT_NAME = App"; T "SWIFT_VERSION = 5.0"].

(** A project whose settings already have the values the XCFramework
    script asks for. *)
Definition xcframework_project : text :=
  debug_configuration
    [T "FRAMEWORK_SEARCH_PATHS = " ++ XCFramework.framework_search_path;
     T "HEADER_SEARCH_PATHS = " ++ XCFramework.xcframework_header_path;
     T "OTHER_LDFLAGS = " ++ XCFramework.xcframework_ldflags].

(** The first setting holds a brace token inside a quoted string. *)
Definition braced_value_project : text :=
  debug_configuration
    [T "INFOPLIST_FILE = " ++ q "${SRCROOT}/Info.plist"; T "PRODUCT_NAME = App"].

(** A file-reference section, with no build configuration at all. *)
Definition file_reference_section : text :=
  T "/* Begin PBXFileReference section */" ++ nl
  ++ tabs 2 ++ T "E0C520FA2DF4C8C7009D84A3 /* libdjvulibre.a */ = {isa = PBXFileReference; path = libdjvulibre.a; };" ++ nl
  ++ T "/* End PBXFileReference section */" ++ nl.

Definition file_reference_section_after : text :=
  T "/* Begin PBXFileReference section */" ++ nl
  ++ T "/* End PBXFileReference section */" ++ nl.

(** The same key twice in one settings table. *)
Definition duplicate_key_project : text :=
  debug_configuration
    [T "OTHER_LDFLAGS = " ++ q "-lfoo"; T "OTHER_LDFLAGS = " ++ q "-lbar"].

Definition duplicate_key_project_after : text :=
  debug_configuration
    [T "OTHER_LDFLAGS = " ++ XCFramework.xcframework_ldflags;
     T "OTHER_LDFLAGS = " ++ XCFramework.xcframework_ldflags].

(** A document with neither the Debug nor the Release anchor. *)
Definition profile_only_project : text :=
  configuration "E0C520FB2DF4C8C7009D84A3 /* Profile */" "Profile"
    [T "PRODUCT_NAME = App"].

(** Two lines ending in carriage return, line feed. *)
Definition crlf_document : text :=
  T "// !$*UTF8*$!" ++ [CR; NL] ++ T "{" ++ [CR; NL] ++ T "}" ++ [CR; NL].

Definition lf_document : text :=
  T "// !$*UTF8*$!" ++ nl ++ T "{" ++ nl ++ T "}" ++ nl.

(** A store holding only the project file, and nothing printed yet. *)
Definition initial_world (msg : Type) (raw : text) : world msg :=
  mkWorld (fun p => if String.eqb p project_path then Some raw else None)
          (fun _ => false) (fun _ => false) [].

Definition empty_world (msg : Type) : world msg :=
  mkWorld (fun _ => None) (fun _ => false) (fun _ => false) [].

(** A store holding the project file and one other file. *)
Definition world_with_other (msg : Type) (raw : text) (p : string) (d : text)
    : world msg :=
  mkWorld (fun q => if String.eqb q project_path then Some raw
                    else if String.eqb q p then Some d else None)
          (fun _ => false) (fun _ => false) [].

(** A store in which the project path is a directory. *)
Definition directory_world (msg : Type) : world msg :=
  mkWorld (fun _ => None) (fun p => String.eqb p project_path)
          (fun p => String.eqb p project_path) [].

(** A store in which the project file is read-only. *)
Definition read_only_world (msg : Type) (raw : text) : world msg :=
  mkWorld (fun p => if String.eqb p project_path then Some raw else None)
          (fun _ => false) (fun p => String.eqb p project_path) [].

(** A project file saved in Latin-1: the byte 233 alone is not UTF-8. *)
Definition latin1_document : text :=
  T "// caf" ++ ["233"%char] ++ nl.

(** Settings [OTHER_LDFLAGS = v;], each after some other text [u], and the
    text after the last of them. *)
Definition ldflags_key : text := T "OTHER_LDFLAGS = ".

Fixpoint with_ldflags (items : list (text * text)) (rest : text) : text :=
  match items with
  | [] => rest
  | (u, v) :: items' =>
      u ++ ldflags_key ++ v ++ ";"%char :: with_ldflags items' rest
  end.

(** No occurrence of [k] starts inside [u] when [k] follows [u]. *)
Fixpoint starts_nowhere (k u : text) : bool :=
  match u with
  | [] => true
  | _ :: u' => negb (starts_with k (u ++ k)) && starts_nowhere k u'
  end.

(** [Spans p a b]: [b] is [a] with some spans replaced, each of them a
    match of [p] where it stands; every other character is copied, in
    order. *)
Inductive Spans (p : regex) : text -> text -> Prop :=
| Spans_nil : Spans p [] []
| Spans_copy : forall c a b, Spans p a b -> Spans p (c :: a) (c :: b)
| Spans_match : forall a g m new b,
    match_at p a = Some (g, m) ->
    Spans p (skipn m a) b ->
    Spans p a (new ++ b).

(** ** The entry points

    [success = configure_xcode_project()] followed by
    [sys.exit(0 if success else 1)], the same in the three scripts. *)

Definition exit_status (success : bool) : nat := if success then 0 else 1.

(** An exception that nothing catches ends the interpreter with status 1. *)
Definition main (msg : Type) (configure : world msg -> outcome * world msg)
    (w : world msg) : nat * world msg :=
  let r := configure w in
  (match fst r with
   | Returned success => exit_status success
   | Raised _ => 1
   end, snd r).

Definition conditional_linking_main : world ConditionalLinking.msg -> nat * world ConditionalLinking.msg :=
  main ConditionalLinking.configure_xcode_project.
Definition xcframework_main : world XCFramework.msg -> nat * world XCFramework.msg :=
  main XCFramework.configure_xcode_project.
Definition xcode_project_main : world XcodeProject.msg -> nat * world XcodeProject.msg :=
  main XcodeProject.configure_xcode_project.

(** ** Vocabulary of the further properties *)

(** A document made of newline-terminated lines. *)
Definition lines_text (ls : list text) : text :=
  List.concat (map (fun l => l ++ nl) ls).

(** [Subseq a b]: [a] is [b] with some characters left out. *)
Inductive Subseq : text -> text -> Prop :=
| Subseq_nil : forall b, Subseq [] b
| Subseq_skip : forall a x b, Subseq a b -> Subseq a (x :: b)
| Subseq_take : forall a x b, Subseq a b -> Subseq (x :: a) (x :: b).

(** [clash p q]: [p] and [q] differ at a position that both have. *)
Fixpoint clash (p q : text) : bool :=
  match p, q with
  | a :: p', b :: q' => negb (Ascii.eqb a b) || clash p' q'
  | _, _ => false
  end.

(** [apart p q]: [p] clashes with [q] and with every shorter non-empty
    suffix of [q], so no occurrence of [p] can start inside an occurrence
    of [q]. *)
Fixpoint apart (p q : text) : bool :=
  match q with
  | [] => true
  | _ :: q' => clash p q && apart p q'
  end.

(** The path holds a regular file that can be opened and decodes to
    text. *)
Definition readable_text (msg : Type) (w : world msg) (p : string) (raw : text)
    : Prop :=
  unreadable w p = false /\ files w p = Some raw /\ utf8_valid raw = true.

(** A line mentions neither of the two static libraries. *)
Definition keeps_line (l : text) : bool :=
  negb (contains (T "libdjvulibre.a") l)
  && negb (contains (T "libdjvulibre_simulator.a") l).

(** * Properties *)

(** ** Text equality *)

Lemma text_eqb_refl (a : text) : text_eqb a a = true.
Proof.
  induction a as [|x a IH]; simpl; [reflexivity|].
  now rewrite Ascii.eqb_refl, IH.
Qed.

Lemma text_eqb_neq (a b : text) : text_eqb a b = false -> a <> b.
Proof.
  intros H E. subst b. rewrite text_eqb_refl in H. discriminate.
Qed.

Lemma eqb_neq_false (x c : ascii) : x <> c -> Ascii.eqb x c = false.
Proof. intro H. now apply Ascii.eqb_neq. Qed.

(** ** The matcher *)

Lemma rmatch_star_cons c p x s n g :
  rmatch (StarNot c :: p) (x :: s) n g =
  if Ascii.eqb x c then rmatch p (x :: s) n g
  else match rmatch (StarNot c :: p) s (S n) g with
       | Some r => Some r
       | None => rmatch p (x :: s) n g
       end.
Proof. reflexivity. Qed.

Lemma rmatch_star_nil c p n g :
  rmatch (StarNot c :: p) [] n g = rmatch p [] n g.
Proof. reflexivity. Qed.

Lemma rmatch_lazy_eq c p s n g :
  rmatch (LazyStarNot c :: p) s n g =
  match rmatch p s n g with
  | Some r => Some r
  | None =>
      match s with
      | x :: s' => if Ascii.eqb x c then None
                   else rmatch (LazyStarNot c :: p) s' (S n) g
      | [] => None
      end
  end.
Proof. destruct s; reflexivity. Qed.

(** A literal prefix of the pattern consumes the same prefix of the text. *)
Lemma rmatch_lit (l : text) (p : regex) (s : text) (n g : nat) :
  rmatch (map Chr l ++ p) (l ++ s) n g = rmatch p s (List.length l + n) g.
Proof.
  revert n. induction l as [|x l IH]; intro n; simpl; [reflexivity|].
  rewrite Ascii.eqb_refl, IH. f_equal. lia.
Qed.

(** A match never ends before it starts nor after the end of the text. *)
Lemma rmatch_bounds (p : regex) :
  forall s n g g' m, rmatch p s n g = Some (g', m) ->
                     n <= m <= n + List.length s.
Proof.
  induction p as [|a p IH]; intros s n g g' m H.
  - simpl in H. injection H as _ <-. lia.
  - destruct a as [c|c|c|].
    + simpl in H. destruct s as [|x s]; [discriminate|].
      destruct (Ascii.eqb x c); [|discriminate].
      apply IH in H. simpl. lia.
    + revert n H. induction s as [|x s IHs]; intros n H.
      * rewrite rmatch_star_nil in H. now apply IH in H.
      * rewrite rmatch_star_cons in H.
        destruct (Ascii.eqb x c).
        -- now apply IH in H.
        -- destruct (rmatch (StarNot c :: p) s (S n) g) as [r|] eqn:E.
           ++ injection H as ->. apply IHs in E. simpl. lia.
           ++ now apply IH in H.
    + revert n H. induction s as [|x s IHs]; intros n H;
        rewrite rmatch_lazy_eq in H;
        destruct (rmatch p _ n g) as [r|] eqn:E.
      * injection H as ->. now apply IH in E.
      * discriminate.
      * injection H as ->. now apply IH in E.
      * destruct (Ascii.eqb x c); [discriminate|].
        apply IHs in H. simpl. lia.
    + simpl in H. now apply IH in H.
Qed.

Lemma match_at_bound (p : regex) (s : text) (g m : nat) :
  match_at p s = Some (g, m) -> m <= List.length s.
Proof. intro H. apply rmatch_bounds in H. lia. Qed.

(** A greedy run of non-[c] characters followed by [c] stops at the first
    [c] of the text. *)
Lemma rmatch_star_run (c : ascii) (p : regex) (v rest : text) :
  ~ In c v ->
  forall n g,
    rmatch (StarNot c :: Chr c :: p) (v ++ c :: rest) n g =
    rmatch p rest (S (List.length v + n)) g.
Proof.
  induction v as [|x v IH]; intros Hv n g.
  - rewrite app_nil_l, rmatch_star_cons, Ascii.eqb_refl. simpl.
    now rewrite Ascii.eqb_refl.
  - rewrite <- app_comm_cons, rmatch_star_cons.
    assert (Hx : Ascii.eqb x c = false).
    { apply eqb_neq_false. intro E. apply Hv. now left. }
    rewrite Hx, IH by (intro Hin; apply Hv; now right).
    replace (S (List.length v + S n)) with (S (List.length (x :: v) + n))
      by (simpl; lia).
    destruct (rmatch p rest _ g); [reflexivity|].
    simpl. now rewrite Hx.
Qed.

Lemma close_semicolon_cons (x : ascii) (s : text) (n g : nat) :
  rmatch [CloseGroup; Chr ";"%char] (x :: s) n g =
  if Ascii.eqb x ";"%char then Some (n, S n) else None.
Proof. reflexivity. Qed.

(** A lazy run of non-[}] characters that must be followed by a semicolon:
    it stops at the first semicolon when no [}] comes before it. *)
Lemma lazy_run_semicolon (body rest : text) :
  ~ In ";"%char body -> ~ In "}"%char body ->
  forall n g,
    rmatch [LazyStarNot "}"%char; CloseGroup; Chr ";"%char]
           (body ++ ";"%char :: rest) n g
    = Some (List.length body + n, S (List.length body + n)).
Proof.
  induction body as [|x body IH]; intros Hs Hb n g; rewrite rmatch_lazy_eq.
  - reflexivity.
  - assert (H1 : Ascii.eqb x ";"%char = false).
    { apply eqb_neq_false. intro E. apply Hs. now left. }
    assert (H2 : Ascii.eqb x "}"%char = false).
    { apply eqb_neq_false. intro E. apply Hb. now left. }
    rewrite <- app_comm_cons, close_semicolon_cons, H1, H2.
    rewrite IH; [f_equal; f_equal; simpl; lia | |];
      intro Hin; [apply Hs | apply Hb]; now right.
Qed.

(** ... and it fails when a [}] comes before any semicolon. *)
Lemma lazy_run_brace (body rest : text) :
  ~ In ";"%char body ->
  forall n g,
    rmatch [LazyStarNot "}"%char; CloseGroup; Chr ";"%char]
           (body ++ "}"%char :: rest) n g
    = None.
Proof.
  induction body as [|x body IH]; intros Hs n g; rewrite rmatch_lazy_eq.
  - reflexivity.
  - assert (H1 : Ascii.eqb x ";"%char = false).
    { apply eqb_neq_false. intro E. apply Hs. now left. }
    rewrite <- app_comm_cons, close_semicolon_cons, H1.
    destruct (Ascii.eqb x "}"%char); [reflexivity|].
    apply IH. intro Hin. apply Hs. now right.
Qed.

(** ** Substitution *)

Lemma sub_go_skip (p : regex) (repl : text -> text) :
  forall s k, k <= List.length s ->
              sub_go p repl s k = sub_go p repl (skipn k s) 0.
Proof.
  induction s as [|c s IH]; intros k Hk.
  - simpl in Hk. now replace k with 0 by lia.
  - destruct k as [|k]; [reflexivity|].
    simpl in Hk. simpl. apply IH. lia.
Qed.

(** A match of positive length at the head is replaced and the scan goes
    on after it. *)
Lemma re_sub_match_head (p : regex) (repl : text -> text) (s : text) (g k : nat) :
  match_at p s = Some (g, S k) ->
  re_sub p repl s = repl (firstn g s) ++ re_sub p repl (skipn (S k) s).
Proof.
  intro H. pose proof (match_at_bound _ _ H) as Hb.
  destruct s as [|c s]; [simpl in Hb; lia|].
  unfold re_sub. simpl sub_go. rewrite H.
  rewrite sub_go_skip by (simpl in Hb; lia). reflexivity.
Qed.

(** With no match at the head, the first character is copied. *)
Lemma re_sub_nomatch_head (p : regex) (repl : text -> text) (c : ascii) (s : text) :
  match_at p (c :: s) = None ->
  re_sub p repl (c :: s) = c :: re_sub p repl s.
Proof. intro H. unfold re_sub. simpl. now rewrite H. Qed.

Lemma re_search_none_sub (p : regex) (repl : text -> text) :
  forall s, re_search p s = None -> re_sub p repl s = s.
Proof.
  induction s as [|c s IH]; intro H; simpl in H.
  - unfold re_sub. simpl. destruct (match_at p []) as [[g m]|]; [discriminate|reflexivity].
  - destruct (match_at p (c :: s)) as [[g m]|] eqn:E; [discriminate|].
    rewrite re_sub_nomatch_head by assumption. f_equal. apply IH.
    destruct (re_search p s) as [[[i g] m]|]; [discriminate|reflexivity].
Qed.

Lemma found_false_sub (p : regex) (repl : text -> text) (s : text) :
  found p s = false -> re_sub p repl s = s.
Proof.
  unfold found. intro H. apply re_search_none_sub.
  destruct (re_search p s); [discriminate|reflexivity].
Qed.

(** ** Newlines and traces *)

Lemma universal_newlines_id (raw : text) :
  ~ In CR raw -> universal_newlines raw = raw.
Proof.
  induction raw as [|c r IH]; intro H; [reflexivity|].
  simpl. rewrite eqb_neq_false by (intro E; apply H; now left).
  f_equal. apply IH. intro Hin. apply H. now right.
Qed.

Lemma writes_app (msg : Type) (a b : list (event msg)) :
  writes (a ++ b) = writes a ++ writes b.
Proof.
  induction a as [|[m|p d] a IH]; simpl; [reflexivity|assumption|now f_equal].
Qed.

Lemma files_print_all (msg : Type) (ms : list msg) :
  forall w : world msg, files (print_all ms w) = files w.
Proof.
  induction ms as [|m ms IH]; intro w; [reflexivity|].
  unfold print_all in *. simpl. now rewrite IH.
Qed.

Lemma writes_print_all (msg : Type) (ms : list msg) :
  forall w : world msg, writes (trace (print_all ms w)) = writes (trace w).
Proof.
  induction ms as [|m ms IH]; intro w; [reflexivity|].
  unfold print_all in *. simpl. rewrite IH. simpl.
  rewrite writes_app. simpl. now rewrite app_nil_r.
Qed.

Lemma re_search_eq (p : regex) (s : text) :
  re_search p s =
  match match_at p s with
  | Some (g, m) => Some (0, g, m)
  | None =>
      match s with
      | [] => None
      | _ :: s' =>
          match re_search p s' with
          | Some (i, g, m) => Some (S i, g, m)
          | None => None
          end
      end
  end.
Proof. destruct s; reflexivity. Qed.

Lemma match_at_found (p : regex) (s : text) (r : nat * nat) :
  match_at p s = Some r -> found p s = true.
Proof.
  intro H. unfold found. rewrite re_search_eq, H. now destruct r.
Qed.

Lemma skipn_length_app (A : Type) (a b : list A) (n : nat) :
  skipn (List.length a + n) (a ++ b) = skipn n b.
Proof. induction a as [|x a IH]; simpl; [reflexivity|assumption]. Qed.

(** ** The store *)

Lemma files_store_other (msg : Type) (p q : string) (s : text) (w : world msg) :
  p <> q -> files (store_text q s w) p = files w p.
Proof.
  intro H. cbn [store_text files].
  now rewrite (proj2 (String.eqb_neq p q) H).
Qed.

Lemma files_store_same (msg : Type) (q : string) (s : text) (w : world msg) :
  files (store_text q s w) q = Some s.
Proof. cbn [store_text files]. now rewrite String.eqb_refl. Qed.

Lemma writes_store (msg : Type) (q : string) (s : text) (w : world msg) :
  writes (trace (store_text q s w)) = writes (trace w) ++ [(q, s)].
Proof. cbn [store_text trace]. now rewrite writes_app. Qed.

Lemma writes_print (msg : Type) (m : msg) (w : world msg) :
  writes (trace (print m w)) = writes (trace w).
Proof. cbn [print trace]. rewrite writes_app. cbn [writes]. apply app_nil_r. Qed.

Lemma files_print (msg : Type) (m : msg) (w : world msg) :
  files (print m w) = files w.
Proof. reflexivity. Qed.

Lemma unwritable_print_all (msg : Type) (ms : list msg) :
  forall w : world msg, unwritable (print_all ms w) = unwritable w.
Proof.
  induction ms as [|m ms IH]; intro w; [reflexivity|].
  unfold print_all in *. simpl. now rewrite IH.
Qed.

(** A read that succeeds: the path is a regular file that can be opened
    and holds UTF-8 text. *)
Lemma read_text_ok (msg : Type) (w : world msg) (p : string) (c : text) :
  read_text w p = inl c ->
  unreadable w p = false
  /\ exists raw, files w p = Some raw /\ utf8_valid raw = true
                 /\ c = universal_newlines raw.
Proof.
  unfold read_text. destruct (unreadable w p); [discriminate|].
  destruct (files w p) as [raw|]; [|discriminate].
  destruct (utf8_valid raw) eqn:U; [|discriminate].
  intro H. injection H as <-. split; [reflexivity|]. now exists raw.
Qed.

Lemma read_text_of_file (msg : Type) (w : world msg) (p : string) (raw : text) :
  unreadable w p = false -> files w p = Some raw -> utf8_valid raw = true ->
  read_text w p = inl (universal_newlines raw).
Proof. intros B F U. unfold read_text. now rewrite B, F, U. Qed.

Lemma read_text_exists (msg : Type) (w : world msg) (p : string) (c : text) :
  read_text w p = inl c -> path_exists w p = true.
Proof.
  intro H. apply read_text_ok in H as [B [raw [F _]]].
  unfold path_exists. now rewrite B, F.
Qed.

Ltac store_simpl :=
  repeat first
    [ rewrite files_print_all
    | rewrite files_print
    | rewrite writes_print_all
    | rewrite writes_print
    | rewrite writes_store
    | rewrite files_store_other by assumption ].

(** A run of the conditional-linking script on a project file that can be
    read and written, with a backup path that can be written. *)
Lemma conditional_run (w : world ConditionalLinking.msg) (c : text) :
  read_text w project_path = inl c ->
  unwritable w ConditionalLinking.backup_path = false ->
  unwritable w project_path = false ->
  ConditionalLinking.configure_xcode_project w
  = (Returned true,
     print_all [ConditionalLinking.Configured; ConditionalLinking.LibrariesCreated;
                ConditionalLinking.DeviceLibrary; ConditionalLinking.SimulatorLibrary;
                ConditionalLinking.AutomaticSelection]
       (store_text project_path (fst (ConditionalLinking.patch c))
          (print_all (snd (ConditionalLinking.patch c))
             (print ConditionalLinking.CreatedBackup
                (store_text ConditionalLinking.backup_path c
                   (print ConditionalLinking.Configuring w)))))).
Proof.
  intros R B Bp.
  pose proof (read_text_exists _ _ R) as E.
  unfold ConditionalLinking.configure_xcode_project.
  rewrite E. cbn [negb].
  change (read_text (print ConditionalLinking.Configuring w) project_path)
    with (read_text w project_path).
  rewrite R. unfold write_text at 1. cbn [unwritable print]. rewrite B.
  unfold write_text. rewrite unwritable_print_all.
  cbn [unwritable print store_text].
  now rewrite Bp.
Qed.

(** ** The claims *)

(** C1 (the code departs from the claim).  Running configure_xcode_project.py
    a second time on its own output is not a no-op: on a fresh project the
    first run inserts the include path once, the second run appends it to
    HEADER_SEARCH_PATHS again, so the second output differs from the first,
    the list element is duplicated and [modified] is true again. *)
Theorem rerun_appends_include_path_again :
  let run1 := XcodeProject.configure_xcode_project (initial_world _ fresh_project) in
  let run2 := XcodeProject.configure_xcode_project (snd run1) in
  files (snd run2) project_path <> files (snd run1) project_path /\
  exists c1 c2,
    files (snd run1) project_path = Some c1 /\
    files (snd run2) project_path = Some c2 /\
    occurrences XcodeProject.include_path c1 = 1 /\
    occurrences XcodeProject.include_path c2 = 2 /\
    modified (XcodeProject.patch c1) = true /\
    out (XcodeProject.patch c1) = [XcodeProject.UpdatedHeaderSearchPaths].
Proof.
  split.
  - intro H. apply (f_equal (option_map (@List.length ascii))) in H.
    vm_compute in H. discriminate.
  - eexists. eexists.
    split; [vm_compute; reflexivity|].
    split; [vm_compute; reflexivity|].
    repeat split; vm_compute; reflexivity.
Qed.

(** C2, as stated, fails: a document without any build configuration loses
    its file-reference line for libdjvulibre.a. *)
Lemma file_reference_line_removed :
  contains (T "buildSettings") file_reference_section = false /\
  spec_block_end file_reference_section = None /\
  content (XCFramework.patch file_reference_section) = file_reference_section_after /\
  file_reference_section_after <> file_reference_section.
Proof.
  repeat split; try (vm_compute; reflexivity).
  apply text_eqb_neq. vm_compute. reflexivity.
Qed.

Lemma Spans_refl (p : regex) (a : text) : Spans p a a.
Proof. induction a; [apply Spans_nil | now apply Spans_copy]. Qed.

(** [re.sub] rewrites matched spans only. *)
Lemma re_sub_spans_bounded (p : regex) (repl : text -> text) :
  forall n s, List.length s <= n -> Spans p s (re_sub p repl s).
Proof.
  induction n as [|n IH]; intros s Hn.
  - destruct s as [|c s]; [|simpl in Hn; lia].
    unfold re_sub. cbn [sub_go].
    destruct (match_at p []) as [[g m]|] eqn:E; [|apply Spans_nil].
    rewrite <- (app_nil_r (repl [])).
    apply (Spans_match _ _ E). destruct m; apply Spans_nil.
  - destruct s as [|c s].
    + unfold re_sub. cbn [sub_go].
      destruct (match_at p []) as [[g m]|] eqn:E; [|apply Spans_nil].
      rewrite <- (app_nil_r (repl [])).
      apply (Spans_match _ _ E). destruct m; apply Spans_nil.
    + destruct (match_at p (c :: s)) as [[g [|k]]|] eqn:E.
      * unfold re_sub. cbn [sub_go]. rewrite E.
        apply (Spans_match _ _ E). cbn [skipn].
        apply Spans_copy, IH. simpl in Hn. lia.
      * rewrite (re_sub_match_head _ _ _ E).
        apply (Spans_match _ _ E), IH.
        rewrite length_skipn. simpl in Hn. simpl. lia.
      * rewrite re_sub_nomatch_head by assumption.
        apply Spans_copy, IH. simpl in Hn. lia.
Qed.

Lemma re_sub_spans (p : regex) (repl : text -> text) (s : text) :
  Spans p s (re_sub p repl s).
Proof. now apply (re_sub_spans_bounded p repl (n := List.length s)). Qed.

(** Where the pattern matches nowhere, nothing can be rewritten. *)
Lemma Spans_without_match (p : regex) (a b : text) :
  found p a = false -> Spans p a b -> b = a.
Proof.
  intros F H. induction H as [|c a b H IH|a g m new b M H IH].
  - reflexivity.
  - f_equal. apply IH. unfold found in *. rewrite re_search_eq in F.
    destruct (match_at p (c :: a)) as [[g m]|]; [discriminate|].
    destruct (re_search p a) as [[[i g] m]|]; [discriminate|reflexivity].
  - unfold found in F. rewrite re_search_eq, M in F. discriminate.
Qed.

Lemma substitute_spans (msg : Type) (p : regex) (repl : text -> text) (m : msg)
    (st : pstate msg) :
  Spans p (content st) (content (substitute p repl m st)).
Proof. cbn [substitute content]. apply re_sub_spans. Qed.

(** The passes of configure_xcframework.py, each confined to the matches of
    its own pattern. *)
Lemma xcframework_passes (c : text) :
  exists d1 d2 d3 d4 d5,
    Spans (XCFramework.line_with "libdjvulibre.a") c d1
    /\ Spans (XCFramework.line_with "libdjvulibre_simulator.a") d1 d2
    /\ (Spans XCFramework.header_pattern d2 d3 \/ Spans settings_pattern d2 d3)
    /\ Spans XCFramework.lib_search_pattern d3 d4
    /\ (Spans XCFramework.ldflags_pattern d4 d5 \/ Spans settings_pattern d4 d5)
    /\ Spans settings_pattern d5 (content (XCFramework.patch c)).
Proof.
  unfold XCFramework.patch, XCFramework.remove_old_libs,
    XCFramework.old_lib_patterns. cbn [fold_left].
  set (s0 := mkP c false (@nil XCFramework.msg)).
  set (s1 := XCFramework.remove_old_lib s0 (XCFramework.line_with "libdjvulibre.a")).
  set (s2 := XCFramework.remove_old_lib s1
               (XCFramework.line_with "libdjvulibre_simulator.a")).
  set (s3 := XCFramework.header_step s2).
  set (s4 := XCFramework.lib_search_step s3).
  set (s5 := XCFramework.ldflags_step s4).
  exists (content s1), (content s2), (content s3), (content s4), (content s5).
  repeat split.
  - change c with (content s0). unfold s1, XCFramework.remove_old_lib.
    destruct (found _ _); [apply substitute_spans | apply Spans_refl].
  - unfold s2, XCFramework.remove_old_lib.
    destruct (found _ _); [apply substitute_spans | apply Spans_refl].
  - unfold s3, XCFramework.header_step.
    destruct (found _ _); [left | right]; apply substitute_spans.
  - unfold s4, XCFramework.lib_search_step.
    destruct (found _ _); [apply substitute_spans | apply Spans_refl].
  - unfold s5, XCFramework.ldflags_step.
    destruct (found _ _); [left | right]; apply substitute_spans.
  - unfold XCFramework.framework_step.
    destruct (negb _); [apply substitute_spans | apply Spans_refl].
Qed.

(** C2, amended.  The output of configure_xcframework.py is reached from
    the text that was read by six passes, and each pass rewrites only spans
    matched by its own regular expression, wherever in the document they
    lie; every character outside those spans is copied, in order.  In
    particular a document in which none of the expressions matches comes
    out unchanged. *)
Theorem patch_rewrites_only_matched_spans (c : text) :
  (exists d1 d2 d3 d4 d5,
     Spans (XCFramework.line_with "libdjvulibre.a") c d1
     /\ Spans (XCFramework.line_with "libdjvulibre_simulator.a") d1 d2
     /\ (Spans XCFramework.header_pattern d2 d3 \/ Spans settings_pattern d2 d3)
     /\ Spans XCFramework.lib_search_pattern d3 d4
     /\ (Spans XCFramework.ldflags_pattern d4 d5 \/ Spans settings_pattern d4 d5)
     /\ Spans settings_pattern d5 (content (XCFramework.patch c)))
  /\ (found (XCFramework.line_with "libdjvulibre.a") c = false ->
      found (XCFramework.line_with "libdjvulibre_simulator.a") c = false ->
      found XCFramework.header_pattern c = false ->
      found XCFramework.lib_search_pattern c = false ->
      found XCFramework.ldflags_pattern c = false ->
      found settings_pattern c = false ->
      content (XCFramework.patch c) = c).
Proof.
  pose proof (xcframework_passes c) as P.
  split; [exact P|].
  intros F1 F2 F3 F4 F5 F6.
  destruct P as [d1 [d2 [d3 [d4 [d5 [P1 [P2 [P3 [P4 [P5 P6]]]]]]]]]].
  apply (Spans_without_match F1) in P1. subst d1.
  apply (Spans_without_match F2) in P2. subst d2.
  assert (d3 = c) as ->.
  { destruct P3 as [P3|P3]; [apply (Spans_without_match F3 P3)
                            | apply (Spans_without_match F6 P3)]. }
  apply (Spans_without_match F4) in P4. subst d4.
  assert (d5 = c) as ->.
  { destruct P5 as [P5|P5]; [apply (Spans_without_match F5 P5)
                            | apply (Spans_without_match F6 P5)]. }
  apply (Spans_without_match F6 P6).
Qed.

(** C3, as stated, fails: with a brace token inside the first quoted value
    the anchor is present and brace counting finds the closing brace, yet
    the scripts' pattern locates nothing; and on a plain block it stops at
    the first semicolon, far from the closing brace. *)
Lemma braced_value_not_located :
  contains settings_anchor braced_value_project = true /\
  spec_block_end braced_value_project = Some 168 /\
  nth_error braced_value_project 168 = Some "}"%char /\
  located_end braced_value_project = None /\
  spec_block_end fresh_project = Some 147 /\
  located_end fresh_project = Some 117.
Proof. repeat split; vm_compute; reflexivity. Qed.

(** C3, amended.  The scripts do not look for the end of a block.  At an
    anchor [buildSettings = {] the pattern takes the shortest run of
    characters other than [}] that is followed by a semicolon: group 1 ends
    just before the first semicolon when no [}] comes before it, and there
    is no match at that anchor when a [}] comes before any semicolon. *)
Theorem settings_pattern_stops_at_first_semicolon (body rest : text) :
  ~ In ";"%char body ->
  (~ In "}"%char body ->
   match_at settings_pattern (settings_anchor ++ body ++ ";"%char :: rest)
   = Some (List.length settings_anchor + List.length body,
           S (List.length settings_anchor + List.length body)))
  /\ match_at settings_pattern (settings_anchor ++ body ++ "}"%char :: rest) = None.
Proof.
  intro Hs. unfold match_at, settings_pattern, settings_anchor, lit.
  split.
  - intro Hb. rewrite rmatch_lit, lazy_run_semicolon by assumption.
    f_equal. f_equal; lia.
  - rewrite rmatch_lit. now apply lazy_run_brace.
Qed.

Lemma settings_pattern_stops_at_first_semicolon_witness :
  ~ In ";"%char (T " A = 1") /\ ~ In "}"%char (T " A = 1")
  /\ match_at settings_pattern
       (settings_anchor ++ T " A = 1" ++ ";"%char :: T " B = 2; }") = Some (23, 24)
  /\ match_at settings_pattern
       (settings_anchor ++ T " A = 1" ++ "}"%char :: T "; B = 2; }") = None.
Proof.
  assert (Hs : ~ In ";"%char (T " A = 1")).
  { simpl. intros [H|[H|[H|[H|[H|[H|[]]]]]]]; discriminate. }
  assert (Hb : ~ In "}"%char (T " A = 1")).
  { simpl. intros [H|[H|[H|[H|[H|[H|[]]]]]]]; discriminate. }
  split; [exact Hs|]. split; [exact Hb|].
  split.
  - exact (proj1 (settings_pattern_stops_at_first_semicolon
                    (T " A = 1") (T " B = 2; }") Hs) Hb).
  - exact (proj2 (settings_pattern_stops_at_first_semicolon
                    (T " A = 1") (T "; B = 2; }") Hs)).
Defined.

(** C4 (the code departs from the claim).  The backup is written from the
    text returned by a text-mode read, so a document with carriage-return
    line endings is backed up with line feeds only: the backup is not the
    byte-for-byte content of the document. *)
Theorem crlf_backup_differs :
  files (snd (ConditionalLinking.configure_xcode_project
                (initial_world _ crlf_document)))
        ConditionalLinking.backup_path = Some lf_document
  /\ files (snd (XCFramework.configure_xcode_project
                   (initial_world _ crlf_document)))
           XCFramework.backup_path = Some lf_document
  /\ lf_document <> crlf_document.
Proof.
  repeat split; try (vm_compute; reflexivity).
  apply text_eqb_neq. vm_compute. reflexivity.
Qed.

(** The backup is the first file written, before the project file, and it
    holds the text that was read. *)
Lemma conditional_backup_written_first (w : world ConditionalLinking.msg) (raw : text) :
  unreadable w project_path = false ->
  files w project_path = Some raw ->
  utf8_valid raw = true ->
  unwritable w ConditionalLinking.backup_path = false ->
  unwritable w project_path = false ->
  writes (trace (snd (ConditionalLinking.configure_xcode_project w)))
  = writes (trace w)
      ++ [(ConditionalLinking.backup_path, universal_newlines raw);
          (project_path, fst (ConditionalLinking.patch (universal_newlines raw)))].
Proof.
  intros Bp F U Bb Bw.
  rewrite (conditional_run _ (read_text_of_file _ _ Bp F U) Bb Bw). cbn [snd].
  store_simpl. unfold linesep_newlines. now rewrite <- app_assoc.
Qed.

(** At the end of the run the backup still holds the text that was read;
    it is the raw content of the document when that has no carriage
    return. *)
Lemma conditional_backup_kept (w : world ConditionalLinking.msg) (raw : text) :
  unreadable w project_path = false ->
  files w project_path = Some raw ->
  utf8_valid raw = true ->
  unwritable w ConditionalLinking.backup_path = false ->
  unwritable w project_path = false ->
  files (snd (ConditionalLinking.configure_xcode_project w))
        ConditionalLinking.backup_path = Some (universal_newlines raw).
Proof.
  intros Bp F U Bb Bw.
  rewrite (conditional_run _ (read_text_of_file _ _ Bp F U) Bb Bw). cbn [snd].
  assert (D : ConditionalLinking.backup_path <> project_path).
  { apply String.eqb_neq. vm_compute. reflexivity. }
  store_simpl. apply files_store_same.
Qed.

Lemma conditional_backup_exact_without_cr
    (w : world ConditionalLinking.msg) (raw : text) :
  unreadable w project_path = false ->
  files w project_path = Some raw ->
  utf8_valid raw = true ->
  unwritable w ConditionalLinking.backup_path = false ->
  unwritable w project_path = false ->
  ~ In CR raw ->
  files (snd (ConditionalLinking.configure_xcode_project w))
        ConditionalLinking.backup_path = Some raw.
Proof.
  intros Bp F U Bb Bw Hcr. rewrite (conditional_backup_kept w Bp F U Bb Bw).
  now rewrite universal_newlines_id.
Qed.

(** C5 (the code departs from the claim).  A block whose OTHER_LDFLAGS
    already has the desired value is left as it is by the substitution, but
    the step reports an update: it prints the update line and sets
    [modified]. *)
Theorem matching_ldflags_reported_updated :
  XCFramework.ldflags_step (mkP xcframework_project false [])
  = mkP xcframework_project true [XCFramework.UpdatedOtherLdflags].
Proof. vm_compute. reflexivity. Qed.

(** C6.  When the project path does not exist, each of the three scripts
    returns False, writes no file and leaves the store as it was. *)
Theorem missing_project_no_write
    (w1 : world ConditionalLinking.msg) (w2 : world XCFramework.msg)
    (w3 : world XcodeProject.msg) :
  path_exists w1 project_path = false ->
  path_exists w2 project_path = false ->
  path_exists w3 project_path = false ->
  let r1 := ConditionalLinking.configure_xcode_project w1 in
  let r2 := XCFramework.configure_xcode_project w2 in
  let r3 := XcodeProject.configure_xcode_project w3 in
  (fst r1 = Returned false /\ files (snd r1) = files w1
   /\ writes (trace (snd r1)) = writes (trace w1))
  /\ (fst r2 = Returned false /\ files (snd r2) = files w2
      /\ writes (trace (snd r2)) = writes (trace w2))
  /\ (fst r3 = Returned false /\ files (snd r3) = files w3
      /\ writes (trace (snd r3)) = writes (trace w3)).
Proof.
  intros H1 H2 H3.
  unfold ConditionalLinking.configure_xcode_project,
    XCFramework.configure_xcode_project,
    XcodeProject.configure_xcode_project.
  rewrite H1, H2, H3. cbn [negb fst snd].
  rewrite !writes_print.
  repeat split.
Qed.

Lemma missing_project_no_write_witness :
  let w1 := empty_world ConditionalLinking.msg in
  let w2 := empty_world XCFramework.msg in
  let w3 := empty_world XcodeProject.msg in
  (path_exists w1 project_path = false /\ path_exists w2 project_path = false
   /\ path_exists w3 project_path = false)
  /\ fst (ConditionalLinking.configure_xcode_project w1) = Returned false
  /\ fst (XCFramework.configure_xcode_project w2) = Returned false
  /\ fst (XcodeProject.configure_xcode_project w3) = Returned false
  /\ writes (trace (snd (ConditionalLinking.configure_xcode_project w1))) = []
  /\ writes (trace (snd (XCFramework.configure_xcode_project w2))) = []
  /\ writes (trace (snd (XcodeProject.configure_xcode_project w3))) = [].
Proof.
  intros w1 w2 w3.
  pose proof (missing_project_no_write w1 w2 w3 eq_refl eq_refl eq_refl)
    as [[Ha [_ Ha']] [[Hb [_ Hb']] [Hc [_ Hc']]]].
  repeat split; assumption.
Defined.

Lemma xcframework_header_step_modified (st : pstate XCFramework.msg) :
  modified (XCFramework.header_step st) = true.
Proof. unfold XCFramework.header_step. now destruct (found _ _). Qed.

Lemma xcframework_ldflags_step_modified (st : pstate XCFramework.msg) :
  modified (XCFramework.ldflags_step st) = true.
Proof. unfold XCFramework.ldflags_step. now destruct (found _ _). Qed.

Lemma xcframework_lib_search_step_keeps (st : pstate XCFramework.msg) :
  modified st = true -> modified (XCFramework.lib_search_step st) = true.
Proof.
  intro H. unfold XCFramework.lib_search_step.
  destruct (found _ _); [reflexivity|assumption].
Qed.

Lemma xcframework_framework_step_keeps (st : pstate XCFramework.msg) :
  modified st = true -> modified (XCFramework.framework_step st) = true.
Proof.
  intro H. unfold XCFramework.framework_step.
  destruct (negb _); [reflexivity|assumption].
Qed.

(** C7 (the code departs from the claim).  In configure_xcframework.py the
    flag [modified] is true after every run, whatever the document: both
    branches of the header step set it.  On a project that already has the
    desired values the content is unchanged and the flag is true all the
    same. *)
Theorem xcframework_flag_always_set :
  (forall st, modified (XCFramework.header_step st) = true)
  /\ (forall c : text, modified (XCFramework.patch c) = true)
  /\ content (XCFramework.patch xcframework_project) = xcframework_project
  /\ modified (XCFramework.patch xcframework_project) = true.
Proof.
  assert (H : forall c : text, modified (XCFramework.patch c) = true).
  { intro c. unfold XCFramework.patch.
    apply xcframework_framework_step_keeps, xcframework_ldflags_step_modified. }
  split; [exact xcframework_header_step_modified|].
  split; [exact H|]. split; [vm_compute; reflexivity | apply H].
Qed.

(** C8, as stated, fails: on a document with neither anchor the four
    operations are skipped and nothing at all is printed for them; the run
    prints only its fixed lines, the last of them announcing success. *)
Lemma skipped_operations_print_nothing :
  contains ConditionalLinking.debug_build_start profile_only_project = false /\
  contains ConditionalLinking.release_build_start profile_only_project = false /\
  ConditionalLinking.patch profile_only_project = (profile_only_project, []) /\
  trace (snd (ConditionalLinking.configure_xcode_project
                (initial_world _ profile_only_project)))
  = [EvPrint ConditionalLinking.Configuring;
     EvWrite ConditionalLinking.backup_path profile_only_project;
     EvPrint ConditionalLinking.CreatedBackup;
     EvWrite project_path profile_only_project;
     EvPrint ConditionalLinking.Configured;
     EvPrint ConditionalLinking.LibrariesCreated;
     EvPrint ConditionalLinking.DeviceLibrary;
     EvPrint ConditionalLinking.SimulatorLibrary;
     EvPrint ConditionalLinking.AutomaticSelection].
Proof. repeat split; vm_compute; reflexivity. Qed.

(** C9, as stated, fails: with the same key twice in a block, the step
    rewrites both occurrences, not the first one only, and prints the usual
    update line with no mention of the duplicate. *)
Lemma both_occurrences_rewritten :
  occurrences (T "OTHER_LDFLAGS = ") duplicate_key_project = 2 /\
  XCFramework.ldflags_step (mkP duplicate_key_project false [])
  = mkP duplicate_key_project_after true [XCFramework.UpdatedOtherLdflags] /\
  occurrences (q "-lbar") duplicate_key_project = 1 /\
  occurrences (q "-lbar") duplicate_key_project_after = 0.
Proof. repeat split; vm_compute; reflexivity. Qed.

(** C10, as stated, fails: a project file that exists but is not UTF-8
    text makes the read raise and nothing is written; a project path that
    is a directory makes the open raise; a read-only project file makes the
    write raise.  In each case the path exists and no value is returned. *)
Lemma undecodable_project_raises :
  path_exists (initial_world XcodeProject.msg latin1_document) project_path = true
  /\ fst (ConditionalLinking.configure_xcode_project
            (initial_world _ latin1_document)) = Raised UnicodeDecodeError
  /\ fst (XCFramework.configure_xcode_project
            (initial_world _ latin1_document)) = Raised UnicodeDecodeError
  /\ fst (XcodeProject.configure_xcode_project
            (initial_world _ latin1_document)) = Raised UnicodeDecodeError
  /\ writes (trace (snd (XcodeProject.configure_xcode_project
                           (initial_world _ latin1_document)))) = []
  /\ path_exists (directory_world XcodeProject.msg) project_path = true
  /\ fst (XcodeProject.configure_xcode_project (directory_world _)) = Raised OSError
  /\ path_exists (read_only_world XcodeProject.msg fresh_project) project_path = true
  /\ fst (XcodeProject.configure_xcode_project (read_only_world _ fresh_project))
     = Raised OSError.
Proof. repeat split; vm_compute; reflexivity. Qed.

Lemma unwritable_after_backup (msg : Type) (ms : list msg) (m1 m2 : msg)
    (q : string) (s : text) (w : world msg) (p : string) :
  unwritable (print_all ms (print m1 (store_text q s (print m2 w)))) p
  = unwritable w p.
Proof. now rewrite unwritable_print_all. Qed.

Ltac entry_result :=
  let w := fresh "w" in
  let E := fresh "E" in
  let R := fresh "R" in
  let B := fresh "B" in
  let Bp := fresh "Bp" in
  intro w;
  destruct (path_exists w project_path) eqn:E; cbn [negb fst]; [|reflexivity];
  match goal with
  | |- context [read_text (print ?m w) project_path] =>
      change (read_text (print m w) project_path) with (read_text w project_path)
  end;
  destruct (read_text w project_path) as [?c|?e] eqn:R; [|reflexivity];
  unfold write_text at 1; cbn [unwritable print];
  match goal with
  | |- context [if unwritable w ?q then _ else _] =>
      destruct (unwritable w q) eqn:B; [reflexivity|]
  end;
  try match goal with
      | |- context [if modified ?st then _ else _] =>
          destruct (modified st); cbn [andb]; [|reflexivity]
      end;
  unfold write_text; rewrite unwritable_after_backup;
  destruct (unwritable w project_path) eqn:Bp; reflexivity.

Lemma conditional_result (w : world ConditionalLinking.msg) :
  fst (ConditionalLinking.configure_xcode_project w)
  = if path_exists w project_path
    then match read_text w project_path with
         | inr e => Raised e
         | inl _ =>
             if unwritable w ConditionalLinking.backup_path
             then Raised OSError
             else if unwritable w project_path
             then Raised OSError else Returned true
         end
    else Returned false.
Proof.
  revert w. unfold ConditionalLinking.configure_xcode_project. entry_result.
Qed.

Lemma xcframework_result (w : world XCFramework.msg) :
  fst (XCFramework.configure_xcode_project w)
  = if path_exists w project_path
    then match read_text w project_path with
         | inr e => Raised e
         | inl c =>
             if unwritable w XCFramework.backup_path
             then Raised OSError
             else if modified (XCFramework.patch c) && unwritable w project_path
             then Raised OSError else Returned true
         end
    else Returned false.
Proof.
  revert w. unfold XCFramework.configure_xcode_project. entry_result.
Qed.

Lemma xcode_project_result (w : world XcodeProject.msg) :
  fst (XcodeProject.configure_xcode_project w)
  = if path_exists w project_path
    then match read_text w project_path with
         | inr e => Raised e
         | inl c =>
             if unwritable w XcodeProject.backup_path
             then Raised OSError
             else if modified (XcodeProject.patch c) && unwritable w project_path
             then Raised OSError else Returned true
         end
    else Returned false.
Proof.
  revert w. unfold XcodeProject.configure_xcode_project. entry_result.
Qed.

(** C10, amended.  What each of the three scripts returns: False exactly
    when the project path does not exist.  When it exists the script
    returns True, also when nothing matched, provided that the file can be
    opened and decoded as text, that the backup can be written and that
    the project file can be written where the script writes it (always in
    configure_conditional_linking.py, only with [modified] set in the other
    two); otherwise no value is returned: the read or the write raises an
    exception that nothing catches. *)
Theorem result_of_each_script :
  (forall w, fst (ConditionalLinking.configure_xcode_project w)
             = if path_exists w project_path
               then match read_text w project_path with
                    | inr e => Raised e
                    | inl _ =>
                        if unwritable w ConditionalLinking.backup_path
                        then Raised OSError
                        else if unwritable w project_path
                        then Raised OSError else Returned true
                    end
               else Returned false)
  /\ (forall w, fst (XCFramework.configure_xcode_project w)
                = if path_exists w project_path
                  then match read_text w project_path with
                       | inr e => Raised e
                       | inl c =>
                           if unwritable w XCFramework.backup_path
                           then Raised OSError
                           else if modified (XCFramework.patch c)
                                   && unwritable w project_path
                           then Raised OSError else Returned true
                       end
                  else Returned false)
  /\ (forall w, fst (XcodeProject.configure_xcode_project w)
                = if path_exists w project_path
                  then match read_text w project_path with
                       | inr e => Raised e
                       | inl c =>
                           if unwritable w XcodeProject.backup_path
                           then Raised OSError
                           else if modified (XcodeProject.patch c)
                                   && unwritable w project_path
                           then Raised OSError else Returned true
                       end
                  else Returned false).
Proof.
  split; [|split]; intro w;
    [apply conditional_result | apply xcframework_result
     | apply xcode_project_result].
Qed.

(** * Further properties of the scripts *)

(** ** More on matching *)

Lemma not_in_by_existsb (c : ascii) (l : text) :
  existsb (Ascii.eqb c) l = false -> ~ In c l.
Proof.
  intros H Hin.
  assert (E : existsb (Ascii.eqb c) l = true).
  { apply existsb_exists. exists c. split; [assumption | apply Ascii.eqb_refl]. }
  congruence.
Qed.

Lemma starts_with_length (p s : text) :
  starts_with p s = true -> List.length p <= List.length s.
Proof.
  revert s. induction p as [|a p IH]; intros [|x s] H; simpl in *;
    try lia; try discriminate.
  apply andb_prop in H as [_ H]. apply IH in H. lia.
Qed.

(** A literal prefix of the pattern either consumes itself or fails. *)
Lemma rmatch_lit_gen (l : text) (p : regex) :
  forall s n g,
    rmatch (map Chr l ++ p) s n g =
    if starts_with l s
    then rmatch p (skipn (List.length l) s) (List.length l + n) g
    else None.
Proof.
  induction l as [|a l IH]; intros s n g; [reflexivity|].
  destruct s as [|x s]; [reflexivity|].
  cbn [map app rmatch starts_with List.length skipn].
  rewrite (Ascii.eqb_sym a x).
  destruct (Ascii.eqb x a); [|reflexivity].
  rewrite IH. cbn [andb]. destruct (starts_with l s); [|reflexivity].
  f_equal. lia.
Qed.

Lemma starts_with_before (c : ascii) (name : text) :
  ~ In c name ->
  forall l rest, starts_with name (l ++ c :: rest) = starts_with name l.
Proof.
  induction name as [|a name IH]; intros Hc l rest; [reflexivity|].
  destruct l as [|x l]; simpl.
  - rewrite eqb_neq_false; [reflexivity|].
    intro E. apply Hc. now left.
  - rewrite IH; [reflexivity|]. intro Hin. apply Hc. now right.
Qed.

Lemma skipn_app_within (A : Type) (k : nat) (l z : list A) :
  k <= List.length l -> skipn k (l ++ z) = skipn k l ++ z.
Proof.
  revert l. induction k as [|k IH]; intros l H; [reflexivity|].
  destruct l as [|x l]; simpl in *; [lia|]. apply IH. lia.
Qed.

Lemma in_skipn (A : Type) (x : A) (k : nat) (l : list A) :
  In x (skipn k l) -> In x l.
Proof.
  revert l. induction k as [|k IH]; intros l H; [assumption|].
  destruct l as [|y l]; [assumption|]. right. now apply IH.
Qed.

Lemma in_firstn (A : Type) (x : A) (k : nat) (l : list A) :
  In x (firstn k l) -> In x l.
Proof.
  revert l. induction k as [|k IH]; intros l H; [destruct H|].
  destruct l as [|y l]; [assumption|].
  destruct H as [H|H]; [now left | right; now apply IH].
Qed.

(** ** Lines that mention a library

    The pattern of [old_lib_patterns] for a library [name], on a line. *)

Section LineWith.
Variable name : string.
Hypothesis name_nonempty : T name <> [].
Hypothesis name_one_line : ~ In NL (T name).

Lemma name_not_at_end : forall s, starts_with (T name) (NL :: s) = false.
Proof.
  intro s. destruct (T name) as [|a l] eqn:E; [contradiction|].
  simpl. rewrite eqb_neq_false; [reflexivity|].
  intro Ea. apply name_one_line. now left.
Qed.

Lemma name_not_in_empty : contains (T name) [] = false.
Proof. destruct (T name) as [|a l] eqn:E; [contradiction|reflexivity]. Qed.

(** On a line without the name there is no match; on a line with it the
    match is the whole line and its newline. *)
Lemma line_with_match (l rest : text) :
  ~ In NL l ->
  forall n g,
    rmatch (XCFramework.line_with name) (l ++ NL :: rest) n g =
    if contains (T name) l then Some (g, S (List.length l + n)) else None.
Proof.
  unfold XCFramework.line_with, lit. cbn [app].
  induction l as [|x l IH]; intros Hl n g.
  - rewrite app_nil_l, rmatch_star_cons, Ascii.eqb_refl, rmatch_lit_gen.
    now rewrite name_not_at_end, name_not_in_empty.
  - rewrite <- app_comm_cons, rmatch_star_cons.
    rewrite eqb_neq_false by (intro E; apply Hl; now left).
    rewrite IH by (intro Hin; apply Hl; now right).
    cbn [contains].
    destruct (contains (T name) l).
    + rewrite orb_true_r. f_equal. f_equal. simpl. lia.
    + rewrite orb_false_r, rmatch_lit_gen, app_comm_cons.
      rewrite starts_with_before by assumption.
      destruct (starts_with (T name) (x :: l)) eqn:Es; [|reflexivity].
      pose proof (starts_with_length _ _ Es) as Hlen.
      rewrite skipn_app_within by assumption.
      rewrite (@rmatch_star_run NL [] (skipn (List.length (T name)) (x :: l)) rest).
      * cbn [rmatch]. f_equal. f_equal. rewrite length_skipn. lia.
      * intro Hin. apply Hl. now apply in_skipn in Hin.
Qed.

Lemma run_to_newline_fails (s : text) :
  ~ In NL s -> forall n g, rmatch [StarNot NL; Chr NL] s n g = None.
Proof.
  induction s as [|x s IH]; intros Hs n g; [reflexivity|].
  rewrite rmatch_star_cons.
  rewrite eqb_neq_false by (intro E; apply Hs; now left).
  rewrite IH by (intro Hin; apply Hs; now right).
  cbn [rmatch]. now rewrite eqb_neq_false by (intro E; apply Hs; now left).
Qed.

(** Text without a newline holds no match. *)
Lemma line_with_needs_newline (s : text) :
  ~ In NL s -> forall n g, rmatch (XCFramework.line_with name) s n g = None.
Proof.
  unfold XCFramework.line_with, lit. cbn [app].
  induction s as [|x s IH]; intros Hs n g.
  - rewrite rmatch_star_nil, rmatch_lit_gen.
    destruct (starts_with (T name) []); [|reflexivity].
    apply run_to_newline_fails. intro Hin. now apply in_skipn in Hin.
  - rewrite rmatch_star_cons.
    rewrite eqb_neq_false by (intro E; apply Hs; now left).
    rewrite IH by (intro Hin; apply Hs; now right).
    rewrite rmatch_lit_gen.
    destruct (starts_with (T name) (x :: s)); [|reflexivity].
    apply run_to_newline_fails. intro Hin. apply Hs. now apply in_skipn in Hin.
Qed.

Lemma remove_line_hit (l rest : text) :
  ~ In NL l -> contains (T name) l = true ->
  re_sub (XCFramework.line_with name) (fun _ => []) (l ++ NL :: rest)
  = re_sub (XCFramework.line_with name) (fun _ => []) rest.
Proof.
  intros Hl Hc.
  assert (M : match_at (XCFramework.line_with name) (l ++ NL :: rest)
              = Some (0, S (List.length l))).
  { unfold match_at. rewrite line_with_match, Hc by assumption.
    f_equal. f_equal. lia. }
  rewrite (re_sub_match_head _ _ _ M). cbn [app].
  replace (S (List.length l)) with (List.length l + 1) by lia.
  now rewrite skipn_length_app.
Qed.

Lemma remove_line_miss (l rest : text) :
  ~ In NL l -> contains (T name) l = false ->
  re_sub (XCFramework.line_with name) (fun _ => []) (l ++ NL :: rest)
  = l ++ NL :: re_sub (XCFramework.line_with name) (fun _ => []) rest.
Proof.
  induction l as [|x l IH]; intros Hl Hc.
  - rewrite app_nil_l. apply re_sub_nomatch_head.
    unfold match_at. now rewrite (line_with_match [] rest Hl), name_not_in_empty.
  - rewrite <- !app_comm_cons.
    rewrite re_sub_nomatch_head.
    + f_equal. apply IH.
      * intro Hin. apply Hl. now right.
      * cbn [contains] in Hc. now apply orb_false_elim in Hc as [_ Hc].
    + unfold match_at. rewrite app_comm_cons.
      now rewrite line_with_match, Hc by assumption.
Qed.

Lemma remove_unterminated (s : text) :
  ~ In NL s -> re_sub (XCFramework.line_with name) (fun _ => []) s = s.
Proof.
  induction s as [|x s IH]; intro Hs.
  - unfold re_sub. cbn [sub_go].
    now destruct (match_at (XCFramework.line_with name) []).
  - rewrite re_sub_nomatch_head.
    + f_equal. apply IH. intro Hin. apply Hs. now right.
    + now apply line_with_needs_newline.
Qed.

Lemma remove_lines (ls : list text) (tail : text) :
  Forall (fun l => ~ In NL l) ls -> ~ In NL tail ->
  re_sub (XCFramework.line_with name) (fun _ => []) (lines_text ls ++ tail)
  = lines_text (filter (fun l => negb (contains (T name) l)) ls) ++ tail.
Proof.
  intros Hls Ht. induction Hls as [|l ls Hl _ IH].
  - now apply remove_unterminated.
  - unfold lines_text in *. cbn [map List.concat filter].
    rewrite <- !app_assoc. cbn [nl app].
    destruct (contains (T name) l) eqn:Hc; cbn [negb].
    + now rewrite remove_line_hit.
    + rewrite remove_line_miss by assumption.
      cbn [map List.concat]. rewrite <- !app_assoc. cbn [nl app].
      now rewrite IH.
Qed.

End LineWith.

Lemma remove_old_lib_content (st : pstate XCFramework.msg) (p : regex) :
  content (XCFramework.remove_old_lib st p) = re_sub p (fun _ => []) (content st).
Proof.
  unfold XCFramework.remove_old_lib.
  destruct (found p (content st)) eqn:F; [reflexivity|].
  symmetry. now apply found_false_sub.
Qed.

Lemma Forall_filter_keep (A : Type) (P : A -> Prop) (f : A -> bool) (l : list A) :
  Forall P l -> Forall P (filter f l).
Proof.
  induction 1 as [|x l Hx _ IH]; [constructor|].
  simpl. destruct (f x); [now constructor | assumption].
Qed.

Lemma filter_twice (A : Type) (f g : A -> bool) (l : list A) :
  filter g (filter f l) = filter (fun x => f x && g x) l.
Proof.
  induction l as [|x l IH]; [reflexivity|].
  simpl. destruct (f x); simpl; [destruct (g x)|]; now rewrite IH.
Qed.

(** X1.  Removing the old static library references deletes exactly the
    newline-terminated lines that mention libdjvulibre.a or
    libdjvulibre_simulator.a, each with its newline, and keeps every other
    line in order; a last line that has no newline is kept even when it
    mentions a library. *)
Theorem old_library_lines_removed
    (ls : list text) (tail : text) (m : bool) (o : list XCFramework.msg) :
  Forall (fun l => ~ In NL l) ls -> ~ In NL tail ->
  content (XCFramework.remove_old_libs (mkP (lines_text ls ++ tail) m o))
  = lines_text (filter keeps_line ls) ++ tail.
Proof.
  intros Hls Ht.
  unfold XCFramework.remove_old_libs, XCFramework.old_lib_patterns.
  cbn [fold_left]. rewrite !remove_old_lib_content. cbn [content].
  rewrite remove_lines; try assumption; try discriminate;
    try (apply not_in_by_existsb; reflexivity).
  rewrite remove_lines; try assumption; try discriminate;
    try (apply not_in_by_existsb; reflexivity).
  - now rewrite filter_twice.
  - now apply Forall_filter_keep.
Qed.

Lemma old_library_lines_removed_witness :
  Forall (fun l => ~ In NL l)
    [T "a = 1;"; T "x libdjvulibre.a y"; T "libdjvulibre_simulator.a in Frameworks"]
  /\ ~ In NL (T "libdjvulibre.a")
  /\ content (XCFramework.remove_old_libs
                (mkP (lines_text [T "a = 1;"; T "x libdjvulibre.a y";
                                  T "libdjvulibre_simulator.a in Frameworks"]
                        ++ T "libdjvulibre.a") false []))
     = T "a = 1;" ++ nl ++ T "libdjvulibre.a".
Proof.
  assert (H1 : Forall (fun l => ~ In NL l)
                 [T "a = 1;"; T "x libdjvulibre.a y";
                  T "libdjvulibre_simulator.a in Frameworks"]).
  { repeat constructor; apply not_in_by_existsb; reflexivity. }
  assert (H2 : ~ In NL (T "libdjvulibre.a")).
  { apply not_in_by_existsb; reflexivity. }
  split; [exact H1|]. split; [exact H2|].
  exact (@old_library_lines_removed _ _ false [] H1 H2).
Defined.

Lemma firstn_exact (A : Type) (a z : list A) :
  firstn (List.length a) (a ++ z) = a.
Proof. induction a as [|x a IH]; simpl; [reflexivity | now rewrite IH]. Qed.




Lemma contains_head (needle s : text) :
  contains needle s = false -> starts_with needle s = false.
Proof.
  destruct s; simpl; intro H; now apply orb_false_elim in H as [H _].
Qed.

Lemma no_anchor_no_match_at (c : text) :
  starts_with settings_anchor c = false -> match_at settings_pattern c = None.
Proof.
  intro H. unfold match_at, settings_pattern, lit.
  rewrite rmatch_lit_gen. fold settings_anchor. now rewrite H.
Qed.

(** Without the anchor [buildSettings = {] the settings pattern matches
    nowhere. *)
Lemma no_anchor_no_settings_match (c : text) :
  contains settings_anchor c = false -> re_search settings_pattern c = None.
Proof.
  induction c as [|x c IH]; intro H; rewrite re_search_eq;
    rewrite (no_anchor_no_match_at _ (contains_head _ _ H)); [reflexivity|].
  rewrite IH; [reflexivity|].
  cbn [contains] in H. now apply orb_false_elim in H as [_ H].
Qed.

(** X3.  On a document that has neither a settings table nor any of the
    four keys, configure_xcode_project.py inserts nothing, yet it prints
    the four "Added" lines and sets [modified], so the unchanged text is
    written back. *)
Theorem additions_reported_without_anchor (c : text) :
  contains settings_anchor c = false ->
  contains (T "HEADER_SEARCH_PATHS") c = false ->
  contains (T "LIBRARY_SEARCH_PATHS") c = false ->
  contains (T "OTHER_LDFLAGS") c = false ->
  contains (T "SWIFT_OBJC_BRIDGING_HEADER") c = false ->
  XcodeProject.patch c
  = mkP c true [XcodeProject.AddedHeaderSearchPaths;
                XcodeProject.AddedLibrarySearchPaths;
                XcodeProject.AddedOtherLdflags;
                XcodeProject.AddedBridgingHeader].
Proof.
  intros Ha Hh Hl Ho Hb.
  pose proof (no_anchor_no_settings_match c Ha) as N.
  unfold XcodeProject.patch, XcodeProject.header_step. cbn [content].
  rewrite Hh. cbn [negb]. unfold substitute at 1. cbn [content out modified].
  rewrite re_search_none_sub by exact N.
  unfold XcodeProject.library_step. cbn [content].
  rewrite Hl. cbn [negb]. unfold substitute at 1. cbn [content out modified].
  rewrite re_search_none_sub by exact N.
  unfold XcodeProject.ldflags_step. cbn [content].
  rewrite Ho. cbn [negb]. unfold substitute at 1. cbn [content out modified].
  rewrite re_search_none_sub by exact N.
  unfold XcodeProject.bridging_step. cbn [content].
  rewrite Hb. cbn [negb]. unfold substitute at 1. cbn [content out modified].
  rewrite re_search_none_sub by exact N.
  reflexivity.
Qed.

Lemma additions_reported_without_anchor_witness :
  XcodeProject.patch (T "// !$*UTF8*$!")
  = mkP (T "// !$*UTF8*$!") true
      [XcodeProject.AddedHeaderSearchPaths;
       XcodeProject.AddedLibrarySearchPaths;
       XcodeProject.AddedOtherLdflags;
       XcodeProject.AddedBridgingHeader].
Proof.
  exact (@additions_reported_without_anchor (T "// !$*UTF8*$!")
           eq_refl eq_refl eq_refl eq_refl eq_refl).
Defined.



(** ** Every occurrence of a setting *)

Lemma starts_with_app_long (p : text) :
  forall a z, List.length p <= List.length a ->
              starts_with p (a ++ z) = starts_with p a.
Proof.
  induction p as [|x p IH]; intros a z H; [reflexivity|].
  destruct a as [|y a]; [simpl in H; lia|].
  cbn [app starts_with]. rewrite IH by (simpl in H; lia). reflexivity.
Qed.

Lemma found_app_r (p : regex) (x z : text) :
  found p z = true -> found p (x ++ z) = true.
Proof.
  intro H. induction x as [|c x IH]; [assumption|].
  unfold found in *. cbn [app]. rewrite re_search_eq.
  destruct (match_at p (c :: x ++ z)) as [[g m]|]; [reflexivity|].
  destruct (re_search p (x ++ z)) as [[[i g] m]|]; [reflexivity|discriminate].
Qed.

(** At the key, the pattern matches up to the first semicolon. *)
Lemma ldflags_setting_match (v z : text) :
  ~ In ";"%char v ->
  match_at XCFramework.ldflags_pattern (ldflags_key ++ v ++ ";"%char :: z)
  = Some (0, List.length ldflags_key + (List.length v + 1)).
Proof.
  intro Hv. unfold match_at, XCFramework.ldflags_pattern, lit, ldflags_key.
  rewrite rmatch_lit, rmatch_star_run by assumption.
  simpl. f_equal. f_equal. lia.
Qed.

(** Before the key, where no occurrence of the key starts, it does not. *)
Lemma ldflags_no_match_before (x z : text) :
  starts_with ldflags_key (x ++ ldflags_key) = false ->
  match_at XCFramework.ldflags_pattern (x ++ ldflags_key ++ z) = None.
Proof.
  intro H. unfold match_at, XCFramework.ldflags_pattern, lit.
  rewrite rmatch_lit_gen. fold ldflags_key.
  rewrite app_assoc, starts_with_app_long, H; [reflexivity|].
  rewrite length_app. lia.
Qed.

Lemma ldflags_sub_item (r u v z : text) :
  starts_nowhere ldflags_key u = true ->
  ~ In ";"%char v ->
  re_sub XCFramework.ldflags_pattern (fun _ => r)
         (u ++ ldflags_key ++ v ++ ";"%char :: z)
  = u ++ r ++ re_sub XCFramework.ldflags_pattern (fun _ => r) z.
Proof.
  intros Hu Hv. induction u as [|c u IH].
  - cbn [app].
    pose proof (@ldflags_setting_match v z Hv) as M.
    replace (List.length ldflags_key + (List.length v + 1))
      with (S (List.length ldflags_key + List.length v)) in M by lia.
    rewrite (re_sub_match_head _ _ _ M). f_equal.
    replace (S (List.length ldflags_key + List.length v))
      with (List.length ldflags_key + (List.length v + 1)) by lia.
    rewrite 2 skipn_length_app. reflexivity.
  - cbn [starts_nowhere] in Hu. apply andb_prop in Hu as [Hc Hu].
    apply negb_true_iff in Hc.
    rewrite <- app_comm_cons at 1.
    rewrite re_sub_nomatch_head.
    + rewrite IH by assumption. reflexivity.
    + rewrite app_comm_cons. now apply ldflags_no_match_before.
Qed.

Lemma ldflags_sub_all (r rest : text) (items : list (text * text)) :
  Forall (fun uv => starts_nowhere ldflags_key (fst uv) = true
                    /\ ~ In ";"%char (snd uv)) items ->
  found XCFramework.ldflags_pattern rest = false ->
  re_sub XCFramework.ldflags_pattern (fun _ => ldflags_key ++ r ++ T ";")
         (with_ldflags items rest)
  = with_ldflags (map (fun uv => (fst uv, r)) items) rest.
Proof.
  intros H F. induction H as [|[u v] items [Hu Hv] _ IH].
  - cbn [with_ldflags map]. now apply found_false_sub.
  - cbn [with_ldflags map fst snd] in *.
    rewrite ldflags_sub_item by assumption.
    rewrite IH, <- !app_assoc. reflexivity.
Qed.

(** C9, amended.  The patch is applied to every occurrence of the key, not
    to the first one only, and nothing about a duplicate is reported.  Take
    any document in which the key [OTHER_LDFLAGS = ] occurs at least once,
    cut at the occurrences met from the left: text [u] in which no
    occurrence starts, the key, a value [v] up to the first semicolon, and
    so on, then a rest in which the pattern matches nowhere.  The step
    gives every occurrence the new value, keeps every [u] and the rest as
    they are, sets the flag and prints the one update line, however many
    occurrences there were. *)
Theorem every_ldflags_occurrence_rewritten
    (items : list (text * text)) (rest : text) (m : bool)
    (o : list XCFramework.msg) :
  items <> [] ->
  Forall (fun uv => starts_nowhere ldflags_key (fst uv) = true
                    /\ ~ In ";"%char (snd uv)) items ->
  found XCFramework.ldflags_pattern rest = false ->
  XCFramework.ldflags_step (mkP (with_ldflags items rest) m o)
  = mkP (with_ldflags
           (map (fun uv => (fst uv, XCFramework.xcframework_ldflags)) items) rest)
        true (o ++ [XCFramework.UpdatedOtherLdflags]).
Proof.
  intros Hne H F. unfold XCFramework.ldflags_step. cbn [content].
  assert (Fd : found XCFramework.ldflags_pattern (with_ldflags items rest) = true).
  { destruct items as [|[u v] items]; [contradiction|].
    cbn [with_ldflags]. apply found_app_r.
    apply Forall_inv in H. cbn [snd] in H.
    apply (match_at_found _ _ (@ldflags_setting_match _ _ (proj2 H))). }
  rewrite Fd. unfold substitute. cbn [content out].
  fold ldflags_key. now rewrite ldflags_sub_all.
Qed.

(** A table with the key three times; the last value runs over two
    lines. *)
Lemma every_ldflags_occurrence_rewritten_witness :
  XCFramework.ldflags_step
    (mkP (T "buildSettings = {" ++ nl
          ++ tabs 4 ++ T "OTHER_LDFLAGS = " ++ q "-lfoo" ++ T ";" ++ nl
          ++ tabs 4 ++ T "OTHER_LDFLAGS = " ++ q "-lbar" ++ T ";" ++ nl
          ++ tabs 4 ++ T "OTHER_LDFLAGS = (" ++ nl ++ tabs 5 ++ q "-lbaz" ++ T ","
          ++ nl ++ tabs 4 ++ T ");" ++ nl
          ++ tabs 3 ++ T "};" ++ nl) false [])
  = mkP (T "buildSettings = {" ++ nl
         ++ tabs 4 ++ T "OTHER_LDFLAGS = " ++ XCFramework.xcframework_ldflags ++ T ";" ++ nl
         ++ tabs 4 ++ T "OTHER_LDFLAGS = " ++ XCFramework.xcframework_ldflags ++ T ";" ++ nl
         ++ tabs 4 ++ T "OTHER_LDFLAGS = " ++ XCFramework.xcframework_ldflags ++ T ";" ++ nl
         ++ tabs 3 ++ T "};" ++ nl) true [XCFramework.UpdatedOtherLdflags].
Proof.
  assert (Hne : [(T "buildSettings = {" ++ nl ++ tabs 4, q "-lfoo");
                 (nl ++ tabs 4, q "-lbar");
                 (nl ++ tabs 4, T "(" ++ nl ++ tabs 5 ++ q "-lbaz" ++ T ","
                                ++ nl ++ tabs 4 ++ T ")")]
                <> []) by discriminate.
  assert (H : Forall (fun uv => starts_nowhere ldflags_key (fst uv) = true
                                /\ ~ In ";"%char (snd uv))
                [(T "buildSettings = {" ++ nl ++ tabs 4, q "-lfoo");
                 (nl ++ tabs 4, q "-lbar");
                 (nl ++ tabs 4, T "(" ++ nl ++ tabs 5 ++ q "-lbaz" ++ T ","
                                ++ nl ++ tabs 4 ++ T ")")]).
  { repeat constructor; try (vm_compute; reflexivity);
      apply not_in_by_existsb; vm_compute; reflexivity. }
  assert (F : found XCFramework.ldflags_pattern (nl ++ tabs 3 ++ T "};" ++ nl) = false)
    by (vm_compute; reflexivity).
  exact (@every_ldflags_occurrence_rewritten _ _ false [] Hne H F).
Defined.

(** ** [str.replace] *)

Lemma replace_go_skip (old new : text) :
  forall s k, k <= List.length s ->
              replace_go old new s k = replace_go old new (skipn k s) 0.
Proof.
  induction s as [|c s IH]; intros k Hk.
  - simpl in Hk. now replace k with 0 by lia.
  - destruct k as [|k]; [reflexivity|].
    simpl in Hk. simpl. apply IH. lia.
Qed.

Lemma str_replace_nil (a : ascii) (old' new : text) :
  str_replace (a :: old') new [] = [].
Proof. reflexivity. Qed.

Lemma str_replace_hit (a : ascii) (old' new s : text) :
  starts_with (a :: old') s = true ->
  str_replace (a :: old') new s
  = new ++ str_replace (a :: old') new (skipn (List.length (a :: old')) s).
Proof.
  intro H. pose proof (starts_with_length _ _ H) as Hlen.
  destruct s as [|c s]; [discriminate|].
  unfold str_replace. cbn [replace_go]. rewrite H. cbn [List.length skipn].
  rewrite replace_go_skip by (simpl in Hlen; lia). reflexivity.
Qed.

Lemma str_replace_miss (old new : text) (c : ascii) (s : text) :
  starts_with old (c :: s) = false ->
  str_replace old new (c :: s) = c :: str_replace old new s.
Proof. intro H. unfold str_replace. cbn [replace_go]. now rewrite H. Qed.

Lemma starts_with_self (p z : text) : starts_with p (p ++ z) = true.
Proof.
  induction p as [|a p IH]; [reflexivity|].
  simpl. now rewrite Ascii.eqb_refl, IH.
Qed.

Lemma contains_of_head (needle s : text) :
  starts_with needle s = true -> contains needle s = true.
Proof. destruct s; simpl; intro H; now rewrite H. Qed.

Lemma contains_cons (needle : text) (c : ascii) (s : text) :
  contains needle s = true -> contains needle (c :: s) = true.
Proof. intro H. cbn [contains]. rewrite H. apply orb_true_r. Qed.

(** A replacement that begins with the pattern leaves the pattern in the
    text. *)
Lemma replace_keeps_pattern (a : ascii) (old' extra : text) :
  forall s,
    contains (a :: old') s = true ->
    contains (a :: old') (str_replace (a :: old') ((a :: old') ++ extra) s) = true.
Proof.
  induction s as [|c s IH]; intro H; [discriminate|].
  destruct (starts_with (a :: old') (c :: s)) eqn:E.
  - rewrite str_replace_hit by assumption.
    rewrite <- app_assoc. apply contains_of_head, starts_with_self.
  - rewrite str_replace_miss by assumption.
    apply contains_cons, IH.
    cbn [contains] in H. rewrite E in H. exact H.
Qed.

(** When the pattern and the replacement start with a character that occurs
    nowhere else in either, and they differ somewhere, replacing leaves no
    occurrence of the pattern. *)
Section ReplaceAll.
Variable a : ascii.
Variables old' new' : text.
Hypothesis a_not_in_old : ~ In a old'.
Hypothesis a_not_in_new : ~ In a new'.
Hypothesis differ : forall z, starts_with (a :: old') ((a :: new') ++ z) = false.

Lemma prefix_after_replace (qs : text) :
  ~ In a qs ->
  forall s, starts_with qs (str_replace (a :: old') (a :: new') s) = starts_with qs s.
Proof.
  induction qs as [|b qs IH]; intros Hq s; [reflexivity|].
  assert (Hb : Ascii.eqb b a = false).
  { apply eqb_neq_false. intro E. apply Hq. now left. }
  destruct s as [|d s]; [reflexivity|].
  destruct (starts_with (a :: old') (d :: s)) eqn:E.
  - rewrite str_replace_hit by assumption.
    cbn [starts_with] in E. apply andb_prop in E as [E _].
    apply Ascii.eqb_eq in E. subst d.
    cbn [app starts_with]. now rewrite Hb.
  - rewrite str_replace_miss by assumption.
    cbn [starts_with]. rewrite IH; [reflexivity|].
    intro Hin. apply Hq. now right.
Qed.

Lemma contains_past (x z : text) :
  ~ In a x -> contains (a :: old') (x ++ z) = contains (a :: old') z.
Proof.
  induction x as [|c x IH]; intro Hx; [reflexivity|].
  cbn [app contains starts_with].
  rewrite (Ascii.eqb_sym a c), eqb_neq_false by (intro E; apply Hx; now left).
  cbn [andb orb]. apply IH. intro Hin. apply Hx. now right.
Qed.

Lemma replace_leaves_none_bounded :
  forall n s, List.length s <= n ->
              contains (a :: old') (str_replace (a :: old') (a :: new') s) = false.
Proof.
  induction n as [|n IH]; intros s Hn.
  - destruct s; [reflexivity | simpl in Hn; lia].
  - destruct s as [|c s]; [reflexivity|].
    destruct (starts_with (a :: old') (c :: s)) eqn:E.
    + rewrite str_replace_hit by assumption.
      pose proof (differ (str_replace (a :: old') (a :: new')
                            (skipn (List.length (a :: old')) (c :: s)))) as D.
      rewrite <- app_comm_cons in D |- *.
      cbn [contains]. rewrite D. cbn [orb].
      rewrite contains_past by assumption.
      apply IH. cbn [List.length skipn]. rewrite length_skipn.
      simpl in Hn. lia.
    + rewrite str_replace_miss by assumption.
      cbn [contains]. rewrite IH by (simpl in Hn; lia).
      rewrite orb_false_r. cbn [starts_with] in *.
      now rewrite prefix_after_replace.
Qed.

Lemma replace_leaves_none (s : text) :
  contains (a :: old') (str_replace (a :: old') (a :: new') s) = false.
Proof. now apply (replace_leaves_none_bounded (n := List.length s)). Qed.

End ReplaceAll.

(** ** The conditional-linking replacements *)

Lemma debug_pattern_replaced_everywhere (s : text) :
  contains ConditionalLinking.debug_pattern
    (str_replace ConditionalLinking.debug_pattern
       ConditionalLinking.conditional_ldflags s) = false.
Proof.
  change ConditionalLinking.debug_pattern
    with ("O"%char :: tl ConditionalLinking.debug_pattern).
  change ConditionalLinking.conditional_ldflags
    with ("O"%char :: tl ConditionalLinking.conditional_ldflags).
  apply replace_leaves_none.
  - apply not_in_by_existsb. vm_compute. reflexivity.
  - apply not_in_by_existsb. vm_compute. reflexivity.
  - intro z. reflexivity.
Qed.

Lemma replace_if_present_messages
    (old new : text) (m x : ConditionalLinking.msg)
    (st : text * list ConditionalLinking.msg) :
  In x (snd (ConditionalLinking.replace_if_present old new m st)) ->
  x = m \/ In x (snd st).
Proof.
  unfold ConditionalLinking.replace_if_present.
  destruct (contains old (fst st)); [|now right].
  cbn [snd]. intro H. apply in_app_or in H as [H|[H|[]]]; [now right | now left].
Qed.

(** The two OTHER_LDFLAGS steps together are the Debug step alone. *)
Lemma ldflags_steps_debug_only (st : text * list ConditionalLinking.msg) :
  ConditionalLinking.ldflags_steps st
  = ConditionalLinking.replace_if_present ConditionalLinking.debug_pattern
      ConditionalLinking.conditional_ldflags
      ConditionalLinking.UpdatedDebugLdflags st.
Proof.
  unfold ConditionalLinking.ldflags_steps.
  unfold ConditionalLinking.replace_if_present at 2.
  destruct (contains ConditionalLinking.debug_pattern (fst st)) eqn:Hc.
  - unfold ConditionalLinking.replace_if_present at 1. cbn [fst snd].
    unfold ConditionalLinking.release_pattern.
    rewrite debug_pattern_replaced_everywhere.
    unfold ConditionalLinking.replace_if_present. now rewrite Hc.
  - unfold ConditionalLinking.replace_if_present.
    unfold ConditionalLinking.release_pattern. now rewrite Hc.
Qed.

(** X4.  The "Release" OTHER_LDFLAGS branch can never run: its pattern is
    the Debug pattern, and once the Debug branch has replaced every
    occurrence none is left, so the two steps together are the Debug step
    alone and "Updated Release OTHER_LDFLAGS" is never printed. *)
Theorem release_ldflags_branch_never_runs (c : text) :
  ConditionalLinking.ldflags_steps (c, [])
  = ConditionalLinking.replace_if_present ConditionalLinking.debug_pattern
      ConditionalLinking.conditional_ldflags
      ConditionalLinking.UpdatedDebugLdflags (c, [])
  /\ ~ In ConditionalLinking.UpdatedReleaseLdflags (snd (ConditionalLinking.patch c)).
Proof.
  split; [apply ldflags_steps_debug_only|].
  unfold ConditionalLinking.patch. rewrite ldflags_steps_debug_only. intro H.
  apply replace_if_present_messages in H as [H|H]; [discriminate|].
  apply replace_if_present_messages in H as [H|H]; [discriminate|].
  apply replace_if_present_messages in H as [H|H]; [discriminate|].
  destruct H.
Qed.

(** ** Occurrences that a replacement cannot touch *)

Lemma clash_sound (p q : text) :
  clash p q = true -> forall z, starts_with p (q ++ z) = false.
Proof.
  revert q. induction p as [|a p IH]; intros [|b q] H z; try discriminate.
  cbn [clash] in H. cbn [app starts_with].
  destruct (Ascii.eqb a b); [|reflexivity].
  cbn [negb orb] in H. cbn [andb]. now apply IH.
Qed.

Lemma starts_with_split (p s : text) :
  starts_with p s = true -> s = p ++ skipn (List.length p) s.
Proof.
  revert s. induction p as [|a p IH]; intros s H; [reflexivity|].
  destruct s as [|x s]; [discriminate|].
  cbn [starts_with] in H. apply andb_prop in H as [E H].
  apply Ascii.eqb_eq in E. subst x.
  cbn [List.length skipn app]. f_equal. now apply IH.
Qed.

Lemma contains_app_r (p x z : text) :
  contains p z = true -> contains p (x ++ z) = true.
Proof.
  intro H. induction x as [|c x IH]; [assumption|].
  cbn [app]. now apply contains_cons.
Qed.

Lemma contains_past_apart (p x z : text) :
  apart p x = true -> contains p (x ++ z) = contains p z.
Proof.
  induction x as [|c x IH]; intro H; [reflexivity|].
  cbn [apart] in H. apply andb_prop in H as [Hc Ha].
  rewrite <- app_comm_cons. cbn [contains].
  rewrite app_comm_cons, (clash_sound _ _ Hc). cbn [orb]. now apply IH.
Qed.

Section Untouched.
Variables patt new : text.
Variable a : ascii.
Variable old' : text.
Hypothesis old_outside : apart (a :: old') patt = true.
Hypothesis patt_outside : apart patt (a :: old') = true.

(** An occurrence of [patt] is copied as it is. *)
Lemma occurrence_copied (qs : text) :
  apart (a :: old') qs = true ->
  forall s, starts_with qs s = true ->
            starts_with qs (str_replace (a :: old') new s) = true.
Proof.
  induction qs as [|b qs IH]; intros Hq s H; [reflexivity|].
  assert (Hmiss : starts_with (a :: old') s = false).
  { rewrite (starts_with_split _ _ H).
    cbn [apart] in Hq. apply andb_prop in Hq as [Hc _].
    now apply clash_sound. }
  destruct s as [|d s]; [discriminate|].
  rewrite str_replace_miss by assumption.
  cbn [starts_with] in *. apply andb_prop in H as [E H].
  rewrite E. cbn [andb]. apply IH; [|assumption].
  cbn [apart] in Hq. now apply andb_prop in Hq as [_ Hq].
Qed.

Lemma replace_keeps_other_bounded :
  forall n s, List.length s <= n ->
              contains patt s = true ->
              contains patt (str_replace (a :: old') new s) = true.
Proof.
  induction n as [|n IH]; intros s Hn H.
  - destruct s; [assumption | simpl in Hn; lia].
  - destruct s as [|c s]; [assumption|].
    destruct (starts_with (a :: old') (c :: s)) eqn:E.
    + rewrite str_replace_hit by assumption.
      apply contains_app_r, IH.
      * cbn [List.length skipn]. rewrite length_skipn. simpl in Hn. lia.
      * rewrite (starts_with_split _ _ E) in H.
        now rewrite contains_past_apart in H.
    + rewrite str_replace_miss by assumption.
      destruct (starts_with patt (c :: s)) eqn:Ep.
      * apply contains_of_head.
        rewrite <- (str_replace_miss _ new _ _ E).
        now apply occurrence_copied.
      * apply contains_cons, IH; [simpl in Hn; lia|].
        cbn [contains] in H. now rewrite Ep in H.
Qed.

Lemma replace_keeps_other (s : text) :
  contains patt s = true ->
  contains patt (str_replace (a :: old') new s) = true.
Proof. now apply (replace_keeps_other_bounded (n := List.length s)). Qed.

End Untouched.

Lemma replace_if_present_keeps_other
    (patt old new : text) (m : ConditionalLinking.msg)
    (st : text * list ConditionalLinking.msg) (a : ascii) (old' : text) :
  old = a :: old' ->
  apart old patt = true -> apart patt old = true ->
  contains patt (fst st) = true ->
  contains patt (fst (ConditionalLinking.replace_if_present old new m st)) = true.
Proof.
  intros -> H1 H2 H. unfold ConditionalLinking.replace_if_present.
  destruct (contains (a :: old') (fst st)); [|assumption].
  cbn [fst]. now apply replace_keeps_other.
Qed.

Lemma replace_if_present_keeps_own
    (old extra : text) (m : ConditionalLinking.msg)
    (st : text * list ConditionalLinking.msg) (a : ascii) (old' : text) :
  old = a :: old' ->
  contains old (fst st) = true ->
  contains old (fst (ConditionalLinking.replace_if_present old (old ++ extra) m st)) = true.
Proof.
  intros -> H. unfold ConditionalLinking.replace_if_present. rewrite H.
  cbn [fst]. now apply replace_keeps_pattern.
Qed.

Lemma replace_if_present_prints
    (old new : text) (m : ConditionalLinking.msg)
    (st : text * list ConditionalLinking.msg) :
  contains old (fst st) = true ->
  In m (snd (ConditionalLinking.replace_if_present old new m st)).
Proof.
  intro H. unfold ConditionalLinking.replace_if_present. rewrite H.
  cbn [snd]. apply in_or_app. right. now left.
Qed.

Lemma replace_if_present_keeps_messages
    (old new : text) (m x : ConditionalLinking.msg)
    (st : text * list ConditionalLinking.msg) :
  In x (snd st) -> In x (snd (ConditionalLinking.replace_if_present old new m st)).
Proof.
  intro H. unfold ConditionalLinking.replace_if_present.
  destruct (contains old (fst st)); [|assumption].
  cbn [snd]. apply in_or_app. now left.
Qed.

Lemma replace_if_present_silent
    (old new : text) (m x : ConditionalLinking.msg)
    (st : text * list ConditionalLinking.msg) :
  x <> m ->
  In x (snd (ConditionalLinking.replace_if_present old new m st)) ->
  In x (snd st).
Proof.
  intros Hx H. apply replace_if_present_messages in H as [H|H];
    [contradiction | assumption].
Qed.

(** The Debug flags are added exactly when the Debug anchor is in the text
    that reaches the step. *)
Lemma debug_flags_added (c : text) :
  In ConditionalLinking.AddedDebugFlags (snd (ConditionalLinking.patch c)) ->
  contains ConditionalLinking.debug_build_start
    (fst (ConditionalLinking.ldflags_steps (c, []))) = true.
Proof.
  unfold ConditionalLinking.patch. rewrite ldflags_steps_debug_only. intro H.
  apply replace_if_present_silent in H; [|discriminate].
  unfold ConditionalLinking.replace_if_present at 1 in H.
  destruct (contains ConditionalLinking.debug_build_start _) eqn:E; [reflexivity|].
  apply replace_if_present_silent in H; [|discriminate]. destruct H.
Qed.

Lemma release_flags_added (c : text) :
  In ConditionalLinking.AddedReleaseFlags (snd (ConditionalLinking.patch c)) ->
  contains ConditionalLinking.release_build_start
    (fst (ConditionalLinking.replace_if_present
            ConditionalLinking.debug_build_start
            ConditionalLinking.debug_replacement
            ConditionalLinking.AddedDebugFlags
            (ConditionalLinking.ldflags_steps (c, [])))) = true.
Proof.
  unfold ConditionalLinking.patch. rewrite ldflags_steps_debug_only. intro H.
  unfold ConditionalLinking.replace_if_present at 1 in H.
  destruct (contains ConditionalLinking.release_build_start _) eqn:E; [reflexivity|].
  apply replace_if_present_silent in H; [|discriminate].
  apply replace_if_present_silent in H; [|discriminate]. destruct H.
Qed.

(** Whenever a run adds the library flags to a configuration, a run on its
    output adds them again: the replacement begins with the anchor and the
    other replacements cannot touch it. *)
Lemma conditional_flags_added_again
    (c : text) (m : ConditionalLinking.msg) :
  m = ConditionalLinking.AddedDebugFlags \/ m = ConditionalLinking.AddedReleaseFlags ->
  In m (snd (ConditionalLinking.patch c)) ->
  In m (snd (ConditionalLinking.patch (fst (ConditionalLinking.patch c)))).
Proof.
  intros [-> | ->] H.
  - apply debug_flags_added in H.
    assert (K : contains ConditionalLinking.debug_build_start
                  (fst (ConditionalLinking.patch c)) = true).
    { unfold ConditionalLinking.patch.
      apply (@replace_if_present_keeps_other _ _ _ _ _ "E"%char
               (tl ConditionalLinking.release_build_start));
        try reflexivity.
      apply (@replace_if_present_keeps_own _ _ _ _ "E"%char
               (tl ConditionalLinking.debug_build_start));
        [reflexivity | assumption]. }
    unfold ConditionalLinking.patch at 1. rewrite ldflags_steps_debug_only.
    apply replace_if_present_keeps_messages, replace_if_present_prints.
    apply (@replace_if_present_keeps_other _ _ _ _ _ "O"%char
             (tl ConditionalLinking.debug_pattern));
      try reflexivity.
    exact K.
  - apply release_flags_added in H.
    assert (K : contains ConditionalLinking.release_build_start
                  (fst (ConditionalLinking.patch c)) = true).
    { unfold ConditionalLinking.patch.
      apply (@replace_if_present_keeps_own _ _ _ _ "E"%char
               (tl ConditionalLinking.release_build_start));
        [reflexivity | assumption]. }
    unfold ConditionalLinking.patch at 1. rewrite ldflags_steps_debug_only.
    apply replace_if_present_prints.
    apply (@replace_if_present_keeps_other _ _ _ _ _ "E"%char
             (tl ConditionalLinking.debug_build_start));
      try reflexivity.
    apply (@replace_if_present_keeps_other _ _ _ _ _ "O"%char
             (tl ConditionalLinking.debug_pattern));
      try reflexivity.
    exact K.
Qed.

(** ** Occurrences that a replacement cannot create *)

Lemma clash_sym (p : text) : forall q, clash p q = clash q p.
Proof.
  induction p as [|a p IH]; intros [|b q]; try reflexivity.
  cbn [clash]. now rewrite IH, (Ascii.eqb_sym a b).
Qed.

Section Created.
Variables patt new : text.
Variable a : ascii.
Variable old' : text.
Hypothesis patt_outside_new : apart patt new = true.
Hypothesis new_outside_patt : apart new patt = true.

(** An occurrence of [patt] in the result was copied from the text. *)
Lemma occurrence_from_copy (qs : text) :
  apart new qs = true ->
  forall s, starts_with qs (str_replace (a :: old') new s) = true ->
            starts_with qs s = true.
Proof.
  induction qs as [|b qs IH]; intros Hq s H; [reflexivity|].
  cbn [apart] in Hq. apply andb_prop in Hq as [Hc Hq].
  destruct s as [|d s]; [discriminate|].
  destruct (starts_with (a :: old') (d :: s)) eqn:E.
  - rewrite str_replace_hit in H by assumption.
    rewrite clash_sym in Hc.
    now rewrite (clash_sound _ _ Hc) in H.
  - rewrite str_replace_miss in H by assumption.
    cbn [starts_with] in *. apply andb_prop in H as [Eb H].
    rewrite Eb. cbn [andb]. now apply IH.
Qed.

Lemma replace_creates_none_bounded :
  forall n s, List.length s <= n ->
              contains patt (str_replace (a :: old') new s) = true ->
              contains patt s = true.
Proof.
  induction n as [|n IH]; intros s Hn H.
  - destruct s; [assumption | simpl in Hn; lia].
  - destruct s as [|c s]; [assumption|].
    destruct (starts_with (a :: old') (c :: s)) eqn:E.
    + rewrite str_replace_hit in H by assumption.
      rewrite contains_past_apart in H by assumption.
      rewrite (starts_with_split _ _ E).
      apply contains_app_r, IH; [|assumption].
      cbn [List.length skipn]. rewrite length_skipn. simpl in Hn. lia.
    + destruct (starts_with patt (str_replace (a :: old') new (c :: s))) eqn:Ep.
      * apply contains_of_head. now apply occurrence_from_copy.
      * rewrite str_replace_miss in H, Ep by assumption.
        cbn [contains] in H. rewrite Ep in H. cbn [orb] in H.
        apply contains_cons, IH; [simpl in Hn; lia | assumption].
Qed.

Lemma replace_creates_none (s : text) :
  contains patt s = false ->
  contains patt (str_replace (a :: old') new s) = false.
Proof.
  intro H. destruct (contains patt (str_replace (a :: old') new s)) eqn:E;
    [|reflexivity].
  apply (replace_creates_none_bounded (n := List.length s)) in E; [|lia].
  congruence.
Qed.

End Created.

Lemma replace_if_present_creates_none
    (patt old new : text) (m : ConditionalLinking.msg)
    (st : text * list ConditionalLinking.msg) (a : ascii) (old' : text) :
  old = a :: old' ->
  apart patt new = true -> apart new patt = true ->
  contains patt (fst st) = false ->
  contains patt (fst (ConditionalLinking.replace_if_present old new m st)) = false.
Proof.
  intros -> H1 H2 H. unfold ConditionalLinking.replace_if_present.
  destruct (contains (a :: old') (fst st)); [|assumption].
  cbn [fst]. now apply replace_creates_none.
Qed.

Lemma replace_if_present_skip
    (old new : text) (m : ConditionalLinking.msg)
    (st : text * list ConditionalLinking.msg) :
  contains old (fst st) = false ->
  ConditionalLinking.replace_if_present old new m st = st.
Proof.
  intro H. unfold ConditionalLinking.replace_if_present. now rewrite H.
Qed.

(** C8, amended (configure_conditional_linking.py).  An operation whose
    anchor is absent from the document is skipped without a word: the run
    is the run of the other operations alone, and the line of the skipped
    operation is not printed; no "skipped, not found" report exists.  No
    earlier operation can bring a missing anchor into the text.  With no
    anchor at all the document comes out as it was and no operation line
    is printed. *)
Theorem absent_anchors_skipped (c : text) :
  let debug_step :=
    ConditionalLinking.replace_if_present ConditionalLinking.debug_build_start
      ConditionalLinking.debug_replacement ConditionalLinking.AddedDebugFlags in
  let release_step :=
    ConditionalLinking.replace_if_present ConditionalLinking.release_build_start
      ConditionalLinking.release_replacement ConditionalLinking.AddedReleaseFlags in
  (contains ConditionalLinking.debug_pattern c = false ->
   ConditionalLinking.patch c = release_step (debug_step (c, []))
   /\ ~ In ConditionalLinking.UpdatedDebugLdflags (snd (ConditionalLinking.patch c)))
  /\ (contains ConditionalLinking.debug_build_start c = false ->
      ConditionalLinking.patch c
      = release_step (ConditionalLinking.ldflags_steps (c, []))
      /\ ~ In ConditionalLinking.AddedDebugFlags (snd (ConditionalLinking.patch c)))
  /\ (contains ConditionalLinking.release_build_start c = false ->
      ConditionalLinking.patch c
      = debug_step (ConditionalLinking.ldflags_steps (c, []))
      /\ ~ In ConditionalLinking.AddedReleaseFlags (snd (ConditionalLinking.patch c)))
  /\ (contains ConditionalLinking.debug_pattern c = false ->
      contains ConditionalLinking.debug_build_start c = false ->
      contains ConditionalLinking.release_build_start c = false ->
      ConditionalLinking.patch c = (c, [])).
Proof.
  intros debug_step release_step. subst debug_step release_step.
  assert (L : contains ConditionalLinking.debug_pattern c = false ->
              ConditionalLinking.ldflags_steps (c, []) = (c, [])).
  { intro H. rewrite ldflags_steps_debug_only.
    now apply replace_if_present_skip. }
  assert (D : contains ConditionalLinking.debug_build_start c = false ->
              contains ConditionalLinking.debug_build_start
                (fst (ConditionalLinking.ldflags_steps (c, []))) = false).
  { intro H. rewrite ldflags_steps_debug_only.
    apply (@replace_if_present_creates_none _ _ _ _ _ "O"%char
             (tl ConditionalLinking.debug_pattern)); try reflexivity.
    exact H. }
  assert (R : contains ConditionalLinking.release_build_start c = false ->
              contains ConditionalLinking.release_build_start
                (fst (ConditionalLinking.replace_if_present
                        ConditionalLinking.debug_build_start
                        ConditionalLinking.debug_replacement
                        ConditionalLinking.AddedDebugFlags
                        (ConditionalLinking.ldflags_steps (c, [])))) = false).
  { intro H.
    apply (@replace_if_present_creates_none _ _ _ _ _ "E"%char
             (tl ConditionalLinking.debug_build_start)); try reflexivity.
    rewrite ldflags_steps_debug_only.
    apply (@replace_if_present_creates_none _ _ _ _ _ "O"%char
             (tl ConditionalLinking.debug_pattern)); try reflexivity.
    exact H. }
  split; [|split; [|split]].
  - intro H. unfold ConditionalLinking.patch. rewrite (L H).
    split; [reflexivity|]. intro K.
    apply replace_if_present_silent in K; [|discriminate].
    apply replace_if_present_silent in K; [|discriminate].
    destruct K.
  - intro H. unfold ConditionalLinking.patch.
    rewrite (@replace_if_present_skip _ _ _ _ (D H)).
    split; [reflexivity|]. intro K.
    apply replace_if_present_silent in K; [|discriminate].
    rewrite ldflags_steps_debug_only in K.
    apply replace_if_present_silent in K; [|discriminate].
    destruct K.
  - intro H. unfold ConditionalLinking.patch.
    rewrite (@replace_if_present_skip _ _ _ _ (R H)).
    split; [reflexivity|]. intro K.
    apply replace_if_present_silent in K; [|discriminate].
    rewrite ldflags_steps_debug_only in K.
    apply replace_if_present_silent in K; [|discriminate].
    destruct K.
  - intros H1 H2 H3. unfold ConditionalLinking.patch. rewrite (L H1).
    rewrite (@replace_if_present_skip ConditionalLinking.debug_build_start
               _ _ (c, []) H2).
    now rewrite (@replace_if_present_skip ConditionalLinking.release_build_start
                   _ _ (c, []) H3).
Qed.

Lemma absent_anchors_skipped_witness :
  ConditionalLinking.patch profile_only_project = (profile_only_project, [])
  /\ ~ In ConditionalLinking.AddedReleaseFlags
         (snd (ConditionalLinking.patch fresh_project))
  /\ ~ In ConditionalLinking.UpdatedDebugLdflags
         (snd (ConditionalLinking.patch fresh_project)).
Proof.
  destruct (absent_anchors_skipped profile_only_project) as [_ [_ [_ H]]].
  destruct (absent_anchors_skipped fresh_project) as [H1 [_ [H3 _]]].
  split; [apply H; vm_compute; reflexivity|].
  split; [apply H3 | apply H1]; vm_compute; reflexivity.
Defined.

(** ** Carriage returns *)

Lemma universal_newlines_no_cr (raw : text) : ~ In CR (universal_newlines raw).
Proof.
  induction raw as [|c r IH]; [intros []|].
  cbn [universal_newlines].
  destruct (Ascii.eqb c CR) eqn:E.
  - destruct r as [|d r'].
    + intros [H|[]]. discriminate.
    + destruct (Ascii.eqb d NL) eqn:Ed.
      * apply Ascii.eqb_eq in Ed. subst d.
        cbn [universal_newlines] in IH. exact IH.
      * intros [H|H]; [discriminate | now apply IH].
  - intros [H|H]; [|now apply IH].
    subst c. now rewrite Ascii.eqb_refl in E.
Qed.

Lemma not_in_app (x : ascii) (a b : text) :
  ~ In x a -> ~ In x b -> ~ In x (a ++ b).
Proof. intros Ha Hb H. apply in_app_or in H as [H|H]; auto. Qed.

Lemma replace_go_keeps_out (x : ascii) (old new : text) :
  ~ In x new ->
  forall s k, ~ In x s -> ~ In x (replace_go old new s k).
Proof.
  intro Hn. induction s as [|c s IH]; intros k Hs.
  - cbn [replace_go]. destruct k; [|intros []].
    destruct (starts_with old []); [assumption | intros []].
  - assert (Hc : x <> c) by (intro E; apply Hs; now left).
    assert (Hs' : ~ In x s) by (intro Hin; apply Hs; now right).
    cbn [replace_go]. destruct k as [|k]; [|now apply IH].
    destruct (starts_with old (c :: s)).
    + destruct (List.length old).
      * apply not_in_app; [assumption|].
        intros [H|H]; [now apply Hc | now apply (IH 0)].
      * apply not_in_app; [assumption | now apply IH].
    + intros [H|H]; [now apply Hc | now apply (IH 0)].
Qed.

Lemma sub_go_keeps_out (x : ascii) (p : regex) (repl : text -> text) :
  (forall g, ~ In x g -> ~ In x (repl g)) ->
  forall s k, ~ In x s -> ~ In x (sub_go p repl s k).
Proof.
  intro Hr. induction s as [|c s IH]; intros k Hs.
  - cbn [sub_go]. destruct k; [|intros []].
    destruct (match_at p []); [now apply Hr | intros []].
  - assert (Hc : x <> c) by (intro E; apply Hs; now left).
    assert (Hs' : ~ In x s) by (intro Hin; apply Hs; now right).
    assert (Hg : forall g, ~ In x (repl (firstn g (c :: s)))).
    { intro g. apply Hr. intro Hin. apply Hs. now apply in_firstn in Hin. }
    cbn [sub_go]. destruct k as [|k]; [|now apply IH].
    destruct (match_at p (c :: s)) as [[g [|m]]|].
    + apply not_in_app; [apply Hg|].
      intros [H|H]; [now apply Hc | now apply (IH 0)].
    + apply not_in_app; [apply Hg | now apply IH].
    + intros [H|H]; [now apply Hc | now apply (IH 0)].
Qed.

Lemma substitute_keeps_out (msg : Type) (x : ascii) (p : regex)
    (repl : text -> text) (m : msg) (st : pstate msg) :
  (forall g, ~ In x g -> ~ In x (repl g)) ->
  ~ In x (content st) -> ~ In x (content (substitute p repl m st)).
Proof. intros Hr H. cbn [substitute content]. now apply sub_go_keeps_out. Qed.

Ltac closed_no_cr := apply not_in_by_existsb; vm_compute; reflexivity.

Ltac repl_no_cr :=
  let g := fresh "g" in
  let Hg := fresh "Hg" in
  intros g Hg;
  first [ closed_no_cr
        | unfold add_setting, XcodeProject.append_element;
          apply not_in_app; [exact Hg | closed_no_cr] ].

Ltac step_no_cr :=
  repeat match goal with
         | |- context [if ?b then _ else _] => destruct b
         end;
  try assumption;
  try (apply substitute_keeps_out; [repl_no_cr | assumption]).

Lemma conditional_patch_no_cr (c : text) :
  ~ In CR c -> ~ In CR (fst (ConditionalLinking.patch c)).
Proof.
  intro H.
  assert (Step : forall (old new : text) (m : ConditionalLinking.msg)
                        (st : text * list ConditionalLinking.msg),
             ~ In CR new -> ~ In CR (fst st) ->
             ~ In CR (fst (ConditionalLinking.replace_if_present old new m st))).
  { intros old new m st Hn Hst. unfold ConditionalLinking.replace_if_present.
    destruct (contains old (fst st)); [|assumption].
    cbn [fst]. unfold str_replace. now apply replace_go_keeps_out. }
  unfold ConditionalLinking.patch, ConditionalLinking.ldflags_steps.
  repeat (apply Step; [closed_no_cr|]). exact H.
Qed.

Lemma xcframework_patch_no_cr (c : text) :
  ~ In CR c -> ~ In CR (content (XCFramework.patch c)).
Proof.
  intro H. unfold XCFramework.patch.
  assert (H0 : ~ In CR (content (XCFramework.remove_old_libs (mkP c false [])))).
  { unfold XCFramework.remove_old_libs, XCFramework.old_lib_patterns.
    cbn [fold_left]. rewrite !remove_old_lib_content.
    apply sub_go_keeps_out; [intros g _ []|].
    apply sub_go_keeps_out; [intros g _ []|]. exact H. }
  generalize dependent (XCFramework.remove_old_libs (mkP c false [])).
  intros st0 H0.
  assert (H1 : ~ In CR (content (XCFramework.header_step st0))).
  { unfold XCFramework.header_step. step_no_cr. }
  generalize dependent (XCFramework.header_step st0). intros st1 H1.
  assert (H2 : ~ In CR (content (XCFramework.lib_search_step st1))).
  { unfold XCFramework.lib_search_step. step_no_cr. }
  generalize dependent (XCFramework.lib_search_step st1). intros st2 H2.
  assert (H3 : ~ In CR (content (XCFramework.ldflags_step st2))).
  { unfold XCFramework.ldflags_step. step_no_cr. }
  generalize dependent (XCFramework.ldflags_step st2). intros st3 H3.
  unfold XCFramework.framework_step. step_no_cr.
Qed.

Lemma xcode_project_patch_no_cr (c : text) :
  ~ In CR c -> ~ In CR (content (XcodeProject.patch c)).
Proof.
  intro H. unfold XcodeProject.patch.
  assert (H1 : ~ In CR (content (XcodeProject.header_step (mkP c false [])))).
  { unfold XcodeProject.header_step. cbn [content]. step_no_cr. }
  generalize dependent (XcodeProject.header_step (mkP c false [])). intros st1 H1.
  assert (H2 : ~ In CR (content (XcodeProject.library_step st1))).
  { unfold XcodeProject.library_step. step_no_cr. }
  generalize dependent (XcodeProject.library_step st1). intros st2 H2.
  assert (H3 : ~ In CR (content (XcodeProject.ldflags_step st2))).
  { unfold XcodeProject.ldflags_step. step_no_cr. }
  generalize dependent (XcodeProject.ldflags_step st2). intros st3 H3.
  unfold XcodeProject.bridging_step. step_no_cr.
Qed.

(** X6.  Whatever the line endings of the project file, the text each
    script works on and writes back holds no carriage return: the
    text-mode read turns them into line feeds and no replacement brings one
    in. *)
Theorem rewritten_text_has_no_carriage_return (raw : text) :
  ~ In CR (fst (ConditionalLinking.patch (universal_newlines raw)))
  /\ ~ In CR (content (XCFramework.patch (universal_newlines raw)))
  /\ ~ In CR (content (XcodeProject.patch (universal_newlines raw))).
Proof.
  pose proof (universal_newlines_no_cr raw) as H.
  split; [|split].
  - now apply conditional_patch_no_cr.
  - now apply xcframework_patch_no_cr.
  - now apply xcode_project_patch_no_cr.
Qed.

(** ** Insertion only *)

Lemma Subseq_refl (a : text) : Subseq a a.
Proof. induction a; [apply Subseq_nil | now apply Subseq_take]. Qed.

Lemma Subseq_app_skip (x a b : text) : Subseq a b -> Subseq a (x ++ b).
Proof. intro H. induction x; [assumption | now apply Subseq_skip]. Qed.

Lemma Subseq_app_same (x a b : text) : Subseq a b -> Subseq (x ++ a) (x ++ b).
Proof. intro H. induction x; [assumption | now apply Subseq_take]. Qed.

Lemma Subseq_trans (a b c : text) : Subseq a b -> Subseq b c -> Subseq a c.
Proof.
  intros Hab Hbc. revert a Hab.
  induction Hbc as [b | b x c Hbc IH | b x c Hbc IH]; intros a Hab.
  - inversion Hab. apply Subseq_nil.
  - apply Subseq_skip. now apply IH.
  - inversion Hab as [| a0 y b0 H0 | a0 y b0 H0]; subst.
    + apply Subseq_nil.
    + apply Subseq_skip. now apply IH.
    + apply Subseq_take. now apply IH.
Qed.

(** A pattern that ends with the close of group 1 and a semicolon matches
    group 1 followed by exactly that semicolon. *)
Lemma group_then_semicolon (pre : regex) :
  forall s n g0 g m,
    rmatch (pre ++ [CloseGroup; Chr ";"%char]) s n g0 = Some (g, m) ->
    m = S g /\ n <= g /\ nth_error s (g - n) = Some ";"%char.
Proof.
  induction pre as [|a pre IH]; intros s n g0 g m H.
  - cbn [app rmatch] in H. destruct s as [|x s]; [discriminate|].
    destruct (Ascii.eqb x ";"%char) eqn:E; [|discriminate].
    injection H as <- <-. apply Ascii.eqb_eq in E. subst x.
    rewrite Nat.sub_diag. repeat split. lia.
  - rewrite <- app_comm_cons in H. destruct a as [c|c|c|].
    + cbn [rmatch] in H. destruct s as [|x s]; [discriminate|].
      destruct (Ascii.eqb x c); [|discriminate].
      apply IH in H as [Hm [Hn Hx]]. repeat split; [assumption | lia |].
      replace (g - n) with (S (g - S n)) by lia. exact Hx.
    + revert n H. induction s as [|x s IHs]; intros n H.
      * rewrite rmatch_star_nil in H. now apply IH in H.
      * rewrite rmatch_star_cons in H.
        destruct (Ascii.eqb x c); [now apply IH in H|].
        destruct (rmatch (StarNot c :: pre ++ [CloseGroup; Chr ";"%char]) s (S n) g0)
          as [r|] eqn:E.
        -- injection H as ->. apply IHs in E as [Hm [Hn Hx]].
           repeat split; [assumption | lia |].
           replace (g - n) with (S (g - S n)) by lia. exact Hx.
        -- now apply IH in H.
    + revert n H. induction s as [|x s IHs]; intros n H;
        rewrite rmatch_lazy_eq in H;
        destruct (rmatch (pre ++ [CloseGroup; Chr ";"%char]) _ n g0) as [r|] eqn:E.
      * injection H as ->. now apply IH in E.
      * discriminate.
      * injection H as ->. now apply IH in E.
      * destruct (Ascii.eqb x c); [discriminate|].
        apply IHs in H as [Hm [Hn Hx]].
        repeat split; [assumption | lia |].
        replace (g - n) with (S (g - S n)) by lia. exact Hx.
    + cbn [rmatch] in H. now apply IH in H.
Qed.

Section InsertOnly.
Variable pre : regex.
Variable repl : text -> text.
Variable mid : text.
Hypothesis repl_appends : forall g, repl g = g ++ mid ++ [";"%char].

Lemma insert_only_bounded :
  forall n s, List.length s <= n ->
              Subseq s (re_sub (pre ++ [CloseGroup; Chr ";"%char]) repl s).
Proof.
  induction n as [|n IH]; intros s Hn.
  - destruct s; [apply Subseq_nil | simpl in Hn; lia].
  - destruct s as [|c s]; [apply Subseq_nil|].
    destruct (match_at (pre ++ [CloseGroup; Chr ";"%char]) (c :: s))
      as [[g m]|] eqn:E.
    + pose proof E as E'. unfold match_at in E'.
      apply group_then_semicolon in E' as [-> [_ Hx]].
      rewrite Nat.sub_0_r in Hx.
      apply nth_error_split in Hx as [l1 [l2 [Hs Hl]]].
      rewrite (re_sub_match_head _ _ _ E), repl_appends, Hs.
      subst g. rewrite firstn_exact.
      replace (S (List.length l1)) with (List.length l1 + 1) by lia.
      rewrite skipn_length_app. cbn [skipn].
      rewrite <- !app_assoc. apply Subseq_app_same, Subseq_app_skip.
      cbn [app]. apply Subseq_take, IH.
      apply (f_equal (@List.length ascii)) in Hs.
      rewrite length_app in Hs. simpl in Hs, Hn. lia.
    + rewrite re_sub_nomatch_head by assumption.
      apply Subseq_take, IH. simpl in Hn. lia.
Qed.

Lemma insert_only (s : text) :
  Subseq s (re_sub (pre ++ [CloseGroup; Chr ";"%char]) repl s).
Proof. now apply (insert_only_bounded (n := List.length s)). Qed.

End InsertOnly.

Lemma add_setting_appends (x g : text) :
  add_setting (x ++ T ";") g = g ++ (nl ++ tabs 4 ++ x) ++ [";"%char].
Proof. unfold add_setting. now rewrite <- !app_assoc. Qed.

Lemma append_element_appends (e g : text) :
  XcodeProject.append_element e g = g ++ (T "," ++ nl ++ tabs 4 ++ e) ++ [";"%char].
Proof. unfold XcodeProject.append_element. now rewrite <- !app_assoc. Qed.

Lemma added_setting_only_inserts (x s : text) :
  Subseq s (re_sub settings_pattern (add_setting (x ++ T ";")) s).
Proof.
  change settings_pattern
    with ((lit "buildSettings = {" ++ [LazyStarNot "}"%char])
            ++ [CloseGroup; Chr ";"%char]).
  apply insert_only with (mid := nl ++ tabs 4 ++ x).
  apply add_setting_appends.
Qed.

Lemma appended_element_only_inserts (k : string) (e s : text) :
  Subseq s (re_sub (lit k ++ [StarNot ";"%char; CloseGroup; Chr ";"%char])
              (XcodeProject.append_element e) s).
Proof.
  replace (lit k ++ [StarNot ";"%char; CloseGroup; Chr ";"%char])
    with ((lit k ++ [StarNot ";"%char]) ++ [CloseGroup; Chr ";"%char])
    by (now rewrite <- app_assoc).
  apply insert_only with (mid := T "," ++ nl ++ tabs 4 ++ e).
  apply append_element_appends.
Qed.

Lemma xcode_project_steps_only_insert (st : pstate XcodeProject.msg) :
  Subseq (content st) (content (XcodeProject.header_step st))
  /\ Subseq (content st) (content (XcodeProject.library_step st))
  /\ Subseq (content st) (content (XcodeProject.ldflags_step st))
  /\ Subseq (content st) (content (XcodeProject.bridging_step st)).
Proof.
  unfold XcodeProject.header_step, XcodeProject.library_step,
    XcodeProject.ldflags_step, XcodeProject.bridging_step.
  repeat split;
    repeat match goal with
           | |- context [if ?b then _ else _] => destruct b
           end;
    try apply Subseq_refl;
    cbn [substitute content];
    rewrite ?app_assoc;
    first [ apply added_setting_only_inserts
          | apply appended_element_only_inserts ].
Qed.

(** X10.  configure_xcode_project.py only ever inserts text: the document
    it was given can be read off the patched document by leaving
    characters out, so no character of the input is deleted, changed or
    moved. *)
Theorem xcode_project_only_inserts (c : text) :
  Subseq c (content (XcodeProject.patch c)).
Proof.
  unfold XcodeProject.patch.
  pose proof (xcode_project_steps_only_insert (mkP c false [])) as [H1 _].
  pose proof (xcode_project_steps_only_insert
                (XcodeProject.header_step (mkP c false []))) as [_ [H2 _]].
  pose proof (xcode_project_steps_only_insert
                (XcodeProject.library_step
                   (XcodeProject.header_step (mkP c false [])))) as [_ [_ [H3 _]]].
  pose proof (xcode_project_steps_only_insert
                (XcodeProject.ldflags_step
                   (XcodeProject.library_step
                      (XcodeProject.header_step (mkP c false []))))) as [_ [_ [_ H4]]].
  cbn [content] in H1.
  exact (Subseq_trans (Subseq_trans (Subseq_trans H1 H2) H3) H4).
Qed.

(** ** What the printed lines and the flag say about the text *)

Lemma replace_grows_bounded (a : ascii) (old' new : text) :
  List.length (a :: old') < List.length new ->
  forall n s, List.length s <= n ->
    List.length s <= List.length (str_replace (a :: old') new s)
    /\ (contains (a :: old') s = true ->
        List.length s < List.length (str_replace (a :: old') new s)).
Proof.
  intro Hlen. induction n as [|n IH]; intros s Hn.
  - destruct s; [|simpl in Hn; lia]. split; [simpl; lia | discriminate].
  - destruct s as [|c s]; [split; [simpl; lia | discriminate]|].
    destruct (starts_with (a :: old') (c :: s)) eqn:E.
    + rewrite str_replace_hit by assumption.
      pose proof (starts_with_split _ _ E) as Hs.
      apply (f_equal (@List.length ascii)) in Hs.
      rewrite length_app in Hs.
      destruct (IH (skipn (List.length (a :: old')) (c :: s))) as [IH1 _].
      { rewrite length_skipn. simpl in *. lia. }
      rewrite length_app. split; [|intros _]; lia.
    + rewrite str_replace_miss by assumption.
      destruct (IH s) as [IH1 IH2]; [simpl in Hn; lia|].
      cbn [List.length]. split; [lia|].
      intro H. cbn [contains] in H. rewrite E in H.
      specialize (IH2 H). lia.
Qed.

Lemma replace_grows (a : ascii) (old' new s : text) :
  List.length (a :: old') < List.length new ->
  contains (a :: old') s = true ->
  List.length s < List.length (str_replace (a :: old') new s).
Proof.
  intros Hlen H.
  destruct (@replace_grows_bounded a old' new Hlen (List.length s) s (le_n _))
    as [_ G].
  now apply G.
Qed.

Lemma conditional_replacements_grow (s : text) :
  (contains ConditionalLinking.debug_pattern s = true ->
   List.length s < List.length (str_replace ConditionalLinking.debug_pattern
                                  ConditionalLinking.conditional_ldflags s))
  /\ (contains ConditionalLinking.debug_build_start s = true ->
      List.length s < List.length (str_replace ConditionalLinking.debug_build_start
                                     ConditionalLinking.debug_replacement s))
  /\ (contains ConditionalLinking.release_build_start s = true ->
      List.length s < List.length (str_replace ConditionalLinking.release_build_start
                                     ConditionalLinking.release_replacement s)).
Proof.
  split; [|split]; intro H.
  - change ConditionalLinking.debug_pattern
      with ("O"%char :: tl ConditionalLinking.debug_pattern) in *.
    apply replace_grows; [vm_compute; lia | assumption].
  - change ConditionalLinking.debug_build_start
      with ("E"%char :: tl ConditionalLinking.debug_build_start) in *.
    apply replace_grows; [vm_compute; lia | assumption].
  - change ConditionalLinking.release_build_start
      with ("E"%char :: tl ConditionalLinking.release_build_start) in *.
    apply replace_grows; [vm_compute; lia | assumption].
Qed.

(** Each step either leaves the state as it is, or prints its line and
    makes the text longer. *)
Lemma conditional_step_cases
    (old new : text) (m : ConditionalLinking.msg)
    (st : text * list ConditionalLinking.msg) :
  (contains old (fst st) = true ->
   List.length (fst st) < List.length (str_replace old new (fst st))) ->
  ConditionalLinking.replace_if_present old new m st = st
  \/ (List.length (fst st)
      < List.length (fst (ConditionalLinking.replace_if_present old new m st))
      /\ snd (ConditionalLinking.replace_if_present old new m st) = snd st ++ [m]).
Proof.
  intro G. unfold ConditionalLinking.replace_if_present.
  destruct (contains old (fst st)); [right | now left].
  cbn [fst snd]. split; [now apply G | reflexivity].
Qed.

(** X13.  In the conditional-linking script the printed lines tell the
    truth about the text: the patch prints no update line exactly when it
    leaves the text unchanged, and every printed update made the text
    longer. *)
Theorem conditional_linking_reports_changes (c : text) :
  (snd (ConditionalLinking.patch c) = [] <-> fst (ConditionalLinking.patch c) = c)
  /\ List.length c <= List.length (fst (ConditionalLinking.patch c)).
Proof.
  unfold ConditionalLinking.patch. rewrite ldflags_steps_debug_only.
  destruct (@conditional_step_cases ConditionalLinking.debug_pattern
              ConditionalLinking.conditional_ldflags
              ConditionalLinking.UpdatedDebugLdflags (c, [])
              (proj1 (conditional_replacements_grow c))) as [E1 | [L1 M1]];
    [rewrite E1 | ];
    match goal with
    | |- context [ConditionalLinking.replace_if_present
                    ConditionalLinking.debug_build_start _ _ ?st] =>
        destruct (@conditional_step_cases ConditionalLinking.debug_build_start
                    ConditionalLinking.debug_replacement
                    ConditionalLinking.AddedDebugFlags st
                    (proj1 (proj2 (conditional_replacements_grow (fst st)))))
          as [E2 | [L2 M2]]; [rewrite E2 | ]
    end;
    match goal with
    | |- context [ConditionalLinking.replace_if_present
                    ConditionalLinking.release_build_start _ _ ?st] =>
        destruct (@conditional_step_cases ConditionalLinking.release_build_start
                    ConditionalLinking.release_replacement
                    ConditionalLinking.AddedReleaseFlags st
                    (proj2 (proj2 (conditional_replacements_grow (fst st)))))
          as [E3 | [L3 M3]]; [rewrite E3 | ]
    end;
    cbn [fst snd] in *;
    repeat match goal with
           | H : snd _ = _ |- _ => rewrite H
           end;
    (split; [split; intro H | ]);
    try reflexivity; try lia;
    try (exfalso; rewrite H in *; lia);
    try (exfalso; apply (f_equal (@List.length _)) in H;
         rewrite ?length_app in H; simpl in H; lia).
Qed.

Lemma conditional_patch_grows (c : text) :
  snd (ConditionalLinking.patch c) <> [] ->
  List.length c < List.length (fst (ConditionalLinking.patch c)).
Proof.
  unfold ConditionalLinking.patch. rewrite ldflags_steps_debug_only.
  destruct (@conditional_step_cases ConditionalLinking.debug_pattern
              ConditionalLinking.conditional_ldflags
              ConditionalLinking.UpdatedDebugLdflags (c, [])
              (proj1 (conditional_replacements_grow c))) as [E1 | [L1 M1]];
    [rewrite E1 | ];
    match goal with
    | |- context [ConditionalLinking.replace_if_present
                    ConditionalLinking.debug_build_start _ _ ?st] =>
        destruct (@conditional_step_cases ConditionalLinking.debug_build_start
                    ConditionalLinking.debug_replacement
                    ConditionalLinking.AddedDebugFlags st
                    (proj1 (proj2 (conditional_replacements_grow (fst st)))))
          as [E2 | [L2 M2]]; [rewrite E2 | ]
    end;
    match goal with
    | |- context [ConditionalLinking.replace_if_present
                    ConditionalLinking.release_build_start _ _ ?st] =>
        destruct (@conditional_step_cases ConditionalLinking.release_build_start
                    ConditionalLinking.release_replacement
                    ConditionalLinking.AddedReleaseFlags st
                    (proj2 (proj2 (conditional_replacements_grow (fst st)))))
          as [E3 | [L3 M3]]; [rewrite E3 | ]
    end;
    cbn [fst snd] in *; intro H; try lia.
  exfalso. now apply H.
Qed.

(** X5.  The conditional-linking script is not idempotent on any project it
    applies to: whenever a run adds the library flags to a configuration,
    a run on its output adds them to that configuration again, and the
    text it writes is longer than, so different from, the text it was
    given. *)
Theorem conditional_linking_not_idempotent
    (c : text) (m : ConditionalLinking.msg) :
  m = ConditionalLinking.AddedDebugFlags \/ m = ConditionalLinking.AddedReleaseFlags ->
  In m (snd (ConditionalLinking.patch c)) ->
  In m (snd (ConditionalLinking.patch (fst (ConditionalLinking.patch c))))
  /\ List.length (fst (ConditionalLinking.patch c))
     < List.length (fst (ConditionalLinking.patch (fst (ConditionalLinking.patch c))))
  /\ fst (ConditionalLinking.patch (fst (ConditionalLinking.patch c)))
     <> fst (ConditionalLinking.patch c).
Proof.
  intros Hm H.
  pose proof (@conditional_flags_added_again c m Hm H) as K.
  assert (L : List.length (fst (ConditionalLinking.patch c))
              < List.length (fst (ConditionalLinking.patch
                                    (fst (ConditionalLinking.patch c))))).
  { apply conditional_patch_grows. intro E. rewrite E in K. destruct K. }
  split; [exact K|]. split; [exact L|].
  intro E. rewrite E in L. lia.
Qed.

Lemma conditional_linking_not_idempotent_witness :
  In ConditionalLinking.AddedDebugFlags (snd (ConditionalLinking.patch fresh_project))
  /\ In ConditionalLinking.AddedDebugFlags
       (snd (ConditionalLinking.patch (fst (ConditionalLinking.patch fresh_project))))
  /\ fst (ConditionalLinking.patch (fst (ConditionalLinking.patch fresh_project)))
     <> fst (ConditionalLinking.patch fresh_project).
Proof.
  assert (H : In ConditionalLinking.AddedDebugFlags
                (snd (ConditionalLinking.patch fresh_project))).
  { vm_compute. now left. }
  split; [exact H|].
  destruct (@conditional_linking_not_idempotent fresh_project
              ConditionalLinking.AddedDebugFlags (or_introl eq_refl) H)
    as [K [_ N]].
  split; [exact K | exact N].
Defined.

(** X14.  In configure_xcode_project.py an unset flag is reliable: when the
    patch ends with [modified] false, no step ran, the text is the text
    that was read and nothing was printed, so the run writes the backup
    only. *)
Theorem xcode_project_unmodified_means_unchanged (c : text) :
  modified (XcodeProject.patch c) = false ->
  XcodeProject.patch c = mkP c false [].
Proof.
  unfold XcodeProject.patch, XcodeProject.header_step, XcodeProject.library_step,
    XcodeProject.ldflags_step, XcodeProject.bridging_step.
  repeat match goal with
         | |- context [if ?b then _ else _] => destruct b
         end;
    cbn [substitute modified content out];
    intro H; try discriminate H; reflexivity.
Qed.

Lemma xcode_project_unmodified_means_unchanged_witness :
  modified (XcodeProject.patch
              (T "/* HEADER_SEARCH_PATHS LIBRARY_SEARCH_PATHS OTHER_LDFLAGS SWIFT_OBJC_BRIDGING_HEADER */"))
  = false
  /\ XcodeProject.patch
       (T "/* HEADER_SEARCH_PATHS LIBRARY_SEARCH_PATHS OTHER_LDFLAGS SWIFT_OBJC_BRIDGING_HEADER */")
     = mkP (T "/* HEADER_SEARCH_PATHS LIBRARY_SEARCH_PATHS OTHER_LDFLAGS SWIFT_OBJC_BRIDGING_HEADER */")
         false [].
Proof.
  assert (H : modified (XcodeProject.patch
              (T "/* HEADER_SEARCH_PATHS LIBRARY_SEARCH_PATHS OTHER_LDFLAGS SWIFT_OBJC_BRIDGING_HEADER */"))
              = false) by (vm_compute; reflexivity).
  split; [exact H|].
  exact (@xcode_project_unmodified_means_unchanged _ H).
Defined.

(** ** Runs and the store *)

Lemma xcframework_patch_modified (c : text) :
  modified (XCFramework.patch c) = true.
Proof.
  unfold XCFramework.patch.
  apply xcframework_framework_step_keeps, xcframework_ldflags_step_modified.
Qed.

Lemma backup_paths_differ :
  ConditionalLinking.backup_path <> project_path
  /\ XCFramework.backup_path <> project_path
  /\ XcodeProject.backup_path <> project_path.
Proof.
  repeat split; apply String.eqb_neq; vm_compute; reflexivity.
Qed.

Lemma write_after_print (msg : Type) (m : msg) (p : string) (s : text)
    (w : world msg) :
  unwritable w p = false ->
  write_text p s (print m w) = inl (store_text p s (print m w)).
Proof. intro H. unfold write_text. cbn [unwritable print]. now rewrite H. Qed.

Lemma write_after_backup (msg : Type) (ms : list msg) (m1 m2 : msg)
    (p q : string) (s s' : text) (w : world msg) :
  write_text p s (print_all ms (print m1 (store_text q s' (print m2 w))))
  = if unwritable w p then inr OSError
    else inl (store_text p s
                (print_all ms (print m1 (store_text q s' (print m2 w))))).
Proof. unfold write_text. now rewrite unwritable_after_backup. Qed.

Lemma readable_text_read (msg : Type) (w : world msg) (p : string) (raw : text) :
  readable_text w p raw ->
  read_text w p = inl (universal_newlines raw) /\ path_exists w p = true.
Proof.
  intros [U [F V]].
  pose proof (read_text_of_file _ _ U F V) as R.
  split; [exact R | exact (read_text_exists _ _ R)].
Qed.

(** The steps of a run up to the backup, for a project file that can be
    read and a backup that can be written. *)
Ltac run_to_backup H B :=
  let R := fresh "R" in
  let E := fresh "E" in
  destruct (readable_text_read H) as [R E];
  rewrite E; cbn [negb];
  match goal with
  | |- context [read_text (print ?m ?w) project_path] =>
      change (read_text (print m w) project_path) with (read_text w project_path)
  end;
  rewrite R, write_after_print by exact B.

(** Every branch of a run, as far as the files are concerned. *)
Ltac run_frame :=
  match goal with
  | |- context [path_exists ?w project_path] =>
      destruct (path_exists w project_path); cbn [negb snd]; [|reflexivity]
  end;
  match goal with
  | |- context [read_text (print ?m ?w) project_path] =>
      destruct (read_text (print m w) project_path); [|reflexivity]
  end;
  unfold write_text at 1; cbn [unwritable print];
  match goal with
  | |- context [if unwritable ?w ?q then _ else _] =>
      destruct (unwritable w q); [reflexivity|]
  end;
  try match goal with
      | |- context [if modified ?st then _ else _] => destruct (modified st)
      end;
  unfold write_text; rewrite ?unwritable_after_backup;
  try match goal with
      | |- context [if unwritable ?w project_path then _ else _] =>
          destruct (unwritable w project_path)
      end;
  cbn [snd]; now store_simpl.

(** X7.  A run of a script touches no file other than the project file and
    that script's own backup: every other path, the backups of the other
    two scripts among them, holds afterwards what it held before, however
    the run ends. *)
Theorem run_touches_only_project_and_backup
    (w1 : world ConditionalLinking.msg) (w2 : world XCFramework.msg)
    (w3 : world XcodeProject.msg) (p1 p2 p3 : string) :
  p1 <> project_path -> p1 <> ConditionalLinking.backup_path ->
  p2 <> project_path -> p2 <> XCFramework.backup_path ->
  p3 <> project_path -> p3 <> XcodeProject.backup_path ->
  files (snd (ConditionalLinking.configure_xcode_project w1)) p1 = files w1 p1
  /\ files (snd (XCFramework.configure_xcode_project w2)) p2 = files w2 p2
  /\ files (snd (XcodeProject.configure_xcode_project w3)) p3 = files w3 p3.
Proof.
  intros A1 B1 A2 B2 A3 B3.
  unfold ConditionalLinking.configure_xcode_project,
    XCFramework.configure_xcode_project,
    XcodeProject.configure_xcode_project.
  split; [|split]; run_frame.
Qed.

Lemma run_touches_only_project_and_backup_witness :
  files (snd (ConditionalLinking.configure_xcode_project
                (world_with_other _ fresh_project XCFramework.backup_path lf_document)))
        XCFramework.backup_path = Some lf_document
  /\ files (snd (XCFramework.configure_xcode_project
                   (world_with_other _ fresh_project XcodeProject.backup_path lf_document)))
           XcodeProject.backup_path = Some lf_document
  /\ files (snd (XcodeProject.configure_xcode_project
                   (world_with_other _ fresh_project ConditionalLinking.backup_path
                      lf_document)))
           ConditionalLinking.backup_path = Some lf_document.
Proof.
  assert (A1 : XCFramework.backup_path <> project_path)
    by (apply String.eqb_neq; vm_compute; reflexivity).
  assert (B1 : XCFramework.backup_path <> ConditionalLinking.backup_path)
    by (apply String.eqb_neq; vm_compute; reflexivity).
  assert (A2 : XcodeProject.backup_path <> project_path)
    by (apply String.eqb_neq; vm_compute; reflexivity).
  assert (B2 : XcodeProject.backup_path <> XCFramework.backup_path)
    by (apply String.eqb_neq; vm_compute; reflexivity).
  assert (A3 : ConditionalLinking.backup_path <> project_path)
    by (apply String.eqb_neq; vm_compute; reflexivity).
  assert (B3 : ConditionalLinking.backup_path <> XcodeProject.backup_path)
    by (apply String.eqb_neq; vm_compute; reflexivity).
  exact (@run_touches_only_project_and_backup
           (world_with_other _ fresh_project XCFramework.backup_path lf_document)
           (world_with_other _ fresh_project XcodeProject.backup_path lf_document)
           (world_with_other _ fresh_project ConditionalLinking.backup_path lf_document)
           XCFramework.backup_path XcodeProject.backup_path
           ConditionalLinking.backup_path A1 B1 A2 B2 A3 B3).
Defined.

(** X8.  In the two regex scripts, on a project file that can be read and
    written and with a backup that can be written, the backup, holding the
    text that was read, is the first file written; configure_xcframework.py
    then always writes the project file, and configure_xcode_project.py
    writes it only when [modified] is set, leaving the project file
    untouched otherwise; both return True. *)
Theorem regex_scripts_write_order
    (w2 : world XCFramework.msg) (w3 : world XcodeProject.msg) (raw2 raw3 : text) :
  readable_text w2 project_path raw2 ->
  unwritable w2 XCFramework.backup_path = false ->
  unwritable w2 project_path = false ->
  readable_text w3 project_path raw3 ->
  unwritable w3 XcodeProject.backup_path = false ->
  unwritable w3 project_path = false ->
  (fst (XCFramework.configure_xcode_project w2) = Returned true
   /\ writes (trace (snd (XCFramework.configure_xcode_project w2)))
      = writes (trace w2)
          ++ [(XCFramework.backup_path, universal_newlines raw2);
              (project_path, content (XCFramework.patch (universal_newlines raw2)))])
  /\ (fst (XcodeProject.configure_xcode_project w3) = Returned true
      /\ writes (trace (snd (XcodeProject.configure_xcode_project w3)))
         = writes (trace w3)
             ++ (XcodeProject.backup_path, universal_newlines raw3)
             :: (if modified (XcodeProject.patch (universal_newlines raw3))
                 then [(project_path,
                        content (XcodeProject.patch (universal_newlines raw3)))]
                 else [])).
Proof.
  intros H2 B2 P2 H3 B3 P3.
  unfold XCFramework.configure_xcode_project,
    XcodeProject.configure_xcode_project.
  split.
  - run_to_backup H2 B2. rewrite xcframework_patch_modified.
    rewrite write_after_backup, P2. cbn [fst snd].
    split; [reflexivity|].
    store_simpl. unfold linesep_newlines. now rewrite <- app_assoc.
  - run_to_backup H3 B3.
    destruct (modified (XcodeProject.patch (universal_newlines raw3))).
    + rewrite write_after_backup, P3. cbn [fst snd].
      split; [reflexivity|].
      store_simpl. unfold linesep_newlines. now rewrite <- app_assoc.
    + cbn [fst snd]. split; [reflexivity|]. now store_simpl.
Qed.

Lemma regex_scripts_write_order_witness :
  writes (trace (snd (XCFramework.configure_xcode_project
                        (initial_world _ crlf_document))))
  = [(XCFramework.backup_path, lf_document);
     (project_path, content (XCFramework.patch lf_document))]
  /\ writes (trace (snd (XcodeProject.configure_xcode_project
                           (initial_world _ crlf_document))))
     = [(XcodeProject.backup_path, lf_document);
        (project_path, content (XcodeProject.patch lf_document))].
Proof.
  assert (H2 : readable_text (initial_world XCFramework.msg crlf_document)
                 project_path crlf_document)
    by (repeat split; vm_compute; reflexivity).
  assert (H3 : readable_text (initial_world XcodeProject.msg crlf_document)
                 project_path crlf_document)
    by (repeat split; vm_compute; reflexivity).
  destruct (@regex_scripts_write_order
              (initial_world _ crlf_document) (initial_world _ crlf_document)
              crlf_document crlf_document H2 eq_refl eq_refl H3 eq_refl eq_refl)
    as [[_ K2] [_ K3]].
  split; [exact K2 | exact K3].
Defined.

(** X9.  For a project file of UTF-8 text without carriage returns, the
    backup left by a run is the file's content, character for character,
    in each of the three scripts, whether the project file itself has then
    been rewritten, left alone, or could not be written. *)
Theorem backup_exact_without_carriage_return
    (w1 : world ConditionalLinking.msg) (w2 : world XCFramework.msg)
    (w3 : world XcodeProject.msg) (raw : text) :
  ~ In CR raw ->
  readable_text w1 project_path raw ->
  unwritable w1 ConditionalLinking.backup_path = false ->
  readable_text w2 project_path raw ->
  unwritable w2 XCFramework.backup_path = false ->
  readable_text w3 project_path raw ->
  unwritable w3 XcodeProject.backup_path = false ->
  files (snd (ConditionalLinking.configure_xcode_project w1))
        ConditionalLinking.backup_path = Some raw
  /\ files (snd (XCFramework.configure_xcode_project w2))
           XCFramework.backup_path = Some raw
  /\ files (snd (XcodeProject.configure_xcode_project w3))
           XcodeProject.backup_path = Some raw.
Proof.
  intros Hcr H1 B1 H2 B2 H3 B3.
  destruct backup_paths_differ as [D1 [D2 D3]].
  unfold ConditionalLinking.configure_xcode_project,
    XCFramework.configure_xcode_project,
    XcodeProject.configure_xcode_project.
  split; [|split].
  - run_to_backup H1 B1. rewrite write_after_backup.
    rewrite (universal_newlines_id raw Hcr).
    destruct (unwritable w1 project_path); cbn [snd]; store_simpl;
      apply files_store_same.
  - run_to_backup H2 B2. rewrite ?write_after_backup.
    rewrite (universal_newlines_id raw Hcr).
    destruct (modified _); [destruct (unwritable w2 project_path)|];
      cbn [snd]; store_simpl; apply files_store_same.
  - run_to_backup H3 B3. rewrite ?write_after_backup.
    rewrite (universal_newlines_id raw Hcr).
    destruct (modified _); [destruct (unwritable w3 project_path)|];
      cbn [snd]; store_simpl; apply files_store_same.
Qed.

Lemma backup_exact_without_carriage_return_witness :
  ~ In CR fresh_project
  /\ files (snd (ConditionalLinking.configure_xcode_project
                   (initial_world _ fresh_project)))
           ConditionalLinking.backup_path = Some fresh_project
  /\ files (snd (XCFramework.configure_xcode_project
                   (initial_world _ fresh_project)))
           XCFramework.backup_path = Some fresh_project
  /\ files (snd (XcodeProject.configure_xcode_project
                   (read_only_world _ fresh_project)))
           XcodeProject.backup_path = Some fresh_project.
Proof.
  assert (Hcr : ~ In CR fresh_project)
    by (apply not_in_by_existsb; vm_compute; reflexivity).
  assert (H1 : readable_text (initial_world ConditionalLinking.msg fresh_project)
                 project_path fresh_project)
    by (repeat split; vm_compute; reflexivity).
  assert (H2 : readable_text (initial_world XCFramework.msg fresh_project)
                 project_path fresh_project)
    by (repeat split; vm_compute; reflexivity).
  assert (H3 : readable_text (read_only_world XcodeProject.msg fresh_project)
                 project_path fresh_project)
    by (repeat split; vm_compute; reflexivity).
  assert (B3 : unwritable (read_only_world XcodeProject.msg fresh_project)
                 XcodeProject.backup_path = false)
    by (vm_compute; reflexivity).
  split; [exact Hcr|].
  exact (@backup_exact_without_carriage_return
           (initial_world _ fresh_project) (initial_world _ fresh_project)
           (read_only_world _ fresh_project) fresh_project Hcr
           H1 eq_refl H2 eq_refl H3 B3).
Defined.

(** X12.  The exit status of each script.  It is 1 when the project path
    does not exist, and then the store is left as it was; it is 1 as well
    when the read, the backup write or the write of the project file
    raises, the exception ending the interpreter; it is 0 on every run
    that got through, whatever was or was not patched. *)
Theorem exit_status_of_scripts :
  (forall w, fst (conditional_linking_main w)
             = if path_exists w project_path
               then match read_text w project_path with
                    | inr _ => 1
                    | inl _ =>
                        if unwritable w ConditionalLinking.backup_path
                           || unwritable w project_path
                        then 1 else 0
                    end
               else 1)
  /\ (forall w, fst (xcframework_main w)
                = if path_exists w project_path
                  then match read_text w project_path with
                       | inr _ => 1
                       | inl _ =>
                           if unwritable w XCFramework.backup_path
                              || unwritable w project_path
                           then 1 else 0
                       end
                  else 1)
  /\ (forall w, fst (xcode_project_main w)
                = if path_exists w project_path
                  then match read_text w project_path with
                       | inr _ => 1
                       | inl c =>
                           if unwritable w XcodeProject.backup_path
                              || (modified (XcodeProject.patch c)
                                  && unwritable w project_path)
                           then 1 else 0
                       end
                  else 1)
  /\ (forall w, path_exists w project_path = false ->
                files (snd (conditional_linking_main w)) = files w)
  /\ (forall w, path_exists w project_path = false ->
                files (snd (xcframework_main w)) = files w)
  /\ (forall w, path_exists w project_path = false ->
                files (snd (xcode_project_main w)) = files w).
Proof.
  unfold conditional_linking_main, xcframework_main, xcode_project_main, main.
  cbn [fst snd].
  repeat split; intro w.
  - rewrite conditional_result.
    destruct (path_exists w project_path); [|reflexivity].
    destruct (read_text w project_path); [|reflexivity].
    destruct (unwritable w ConditionalLinking.backup_path); [reflexivity|].
    now destruct (unwritable w project_path).
  - rewrite xcframework_result.
    destruct (path_exists w project_path); [|reflexivity].
    destruct (read_text w project_path) as [c|e]; [|reflexivity].
    rewrite xcframework_patch_modified.
    destruct (unwritable w XCFramework.backup_path); [reflexivity|].
    now destruct (unwritable w project_path).
  - rewrite xcode_project_result.
    destruct (path_exists w project_path); [|reflexivity].
    destruct (read_text w project_path) as [c|e]; [|reflexivity].
    destruct (unwritable w XcodeProject.backup_path); [reflexivity|].
    destruct (modified (XcodeProject.patch c)); [|reflexivity].
    now destruct (unwritable w project_path).
  - intro H. unfold ConditionalLinking.configure_xcode_project.
    now rewrite H.
  - intro H. unfold XCFramework.configure_xcode_project. now rewrite H.
  - intro H. unfold XcodeProject.configure_xcode_project. now rewrite H.
Qed.

Lemma exit_status_of_scripts_witness :
  fst (conditional_linking_main (initial_world _ fresh_project)) = 0
  /\ fst (xcframework_main (initial_world _ latin1_document)) = 1
  /\ fst (xcode_project_main (directory_world _)) = 1
  /\ files (snd (xcode_project_main (empty_world _))) = files (empty_world XcodeProject.msg).
Proof.
  destruct exit_status_of_scripts as [S1 [S2 [S3 [_ [_ S6]]]]].
  split; [rewrite S1; vm_compute; reflexivity|].
  split; [rewrite S2; vm_compute; reflexivity|].
  split; [rewrite S3; vm_compute; reflexivity|].
  apply S6. vm_compute. reflexivity.
Defined.
